(** * Starry String: the per-frame interaction pipeline

    A shallow embedding of the algorithmic core of the repository:

    - [MathUtils]    : [src/utils/math.ts]          (segment intersection)
    - [AudioService] : [src/services/audioService]  (initialize, resume, playPluck)
    - [Binary64]     : the arithmetic of the two, on doubles
    - [StarryCanvas] : [src/components/StarryCanvas.tsx] ([spawnRipple], [onResults])

    Numbers.  A JavaScript [number] is an IEEE 754 double.  [Binary64]
    embeds the segment test and the frequency of a pluck on doubles, with
    the operators of the source in their order, each rounding as it does
    there; what is stated about the values these two functions compute is
    stated over [Binary64].  The pipeline around them (the history of
    positions, the log of plucks, the ripples, the audio graph and its
    voices) is embedded over exact rationals [Q]: the arithmetic of the
    source is kept operator by operator, but it is carried out without
    rounding, and infinities and NaN are not represented.  Rational
    equality is [Qeq] ([==]); two results that the source computes by the
    same expression are also equal with [=].  The bounds of the quantized
    frequency are stated for this exact reading.

    Effects.  The refs of the component and the fields of the audio service
    are threaded as explicit states.  What the callback reads from the
    browser (the canvas, the detection result, the clock and the random
    numbers) is an input of each step; drawing on the canvas changes none
    of the states and is left out.  An [async] method is split at its
    [await], so that other calls can run in between. *)

From Stdlib Require Import QArith Qround Qabs Qpower Lqa Lia ZArith Sorted.
From Stdlib Require Import Floats.
From stdpp Require Import gmap strings pretty list.

Set Warnings "-inexact-float".

(** ** Shared types ([src/types.ts]) *)

Module Point.
Record t : Type := mk { x : Q; y : Q }.
End Point.

Module Ripple.
Record t : Type := mk
  { id : Q;
    x : Q;
    y : Q;
    age : Q;          (* 0 to maxAge *)
    maxAge : Q;
    intensity : Q }.
End Ripple.

Module HandLandmark.
Record t : Type := mk { x : Q; y : Q; z : Q }.
End HandLandmark.

Module HandResults.
(** [multiHandLandmarks] is tested for truthiness by its consumer, so it
    is optional here although the interface declares it present. *)
Record t : Type := mk { multiHandLandmarks : option (list (list HandLandmark.t)) }.
End HandResults.

(** Strict comparison of two numbers as a boolean ([a < b] in the source). *)
Definition Qlt_bool (a b : Q) : bool := negb (Qle_bool b a).

(** ** Geometry kernel ([src/utils/math.ts]) *)

Module MathUtils.
Local Open Scope Q_scope.
Import Point.

(** The three quantities [getLineIntersection] computes, named as in the
    source.  [lambda] and [gamma] are only evaluated when [det] is not 0. *)
Definition det (p1 p2 p3 p4 : Point.t) : Q :=
  (x p2 - x p1) * (y p4 - y p3) - (x p4 - x p3) * (y p2 - y p1).

Definition lambda (p1 p2 p3 p4 : Point.t) : Q :=
  ((y p4 - y p3) * (x p4 - x p1) + (x p3 - x p4) * (y p4 - y p1)) / det p1 p2 p3 p4.

Definition gamma (p1 p2 p3 p4 : Point.t) : Q :=
  ((y p1 - y p2) * (x p4 - x p1) + (x p2 - x p1) * (y p4 - y p1)) / det p1 p2 p3 p4.

(** Segment 1: p1 -> p2, segment 2: p3 -> p4. *)
Definition getLineIntersection (p1 p2 p3 p4 : Point.t) : bool :=
  if Qeq_bool (det p1 p2 p3 p4) 0 then false
  else
    (Qlt_bool 0 (lambda p1 p2 p3 p4) && Qlt_bool (lambda p1 p2 p3 p4) 1)
    && (Qlt_bool 0 (gamma p1 p2 p3 p4) && Qlt_bool (gamma p1 p2 p3 p4) 1).

End MathUtils.

(** ** Audio trigger ([AudioService], imported as [../services/audioService]) *)

(** [Math.round]: the nearest integer, a tie going to the larger one. *)
Definition Math_round (q : Q) : Z := Qfloor (q + (1 # 2)).

Module AudioService.
Local Open Scope Q_scope.

(** The Web Audio objects the service holds, reduced to what the service
    sets on them. *)
Inductive ContextState : Type := suspended | running | closed.

Record AudioContext : Type := mkContext
  { state : ContextState;
    sampleRate : Q }.

Record AudioBuffer : Type := mkBuffer
  { numberOfChannels : nat;
    length : Q;
    bufferRate : Q;
    left : nat -> Q;     (* getChannelData(0) *)
    right : nat -> Q }.  (* getChannelData(1) *)

Record GainNode : Type := mkGain
  { gainValue : Q;
    toDestination : bool }.

Record ConvolverNode : Type := mkConvolver
  { buffer : option AudioBuffer;
    toMaster : bool }.

Inductive OscillatorType : Type := sine | square | sawtooth | triangle.

(** Scheduled changes of an [AudioParam]: the value and the time. *)
Inductive Automation : Type :=
| setValueAtTime (value time : Q)
| linearRampToValueAtTime (value time : Q)
| exponentialRampToValueAtTime (value time : Q).

(** One voice: the oscillator and the gain node [playPluck] creates. *)
Record Voice : Type := mkVoice
  { oscType : OscillatorType;
    frequency : list Automation;
    envelope : list Automation;
    direct : bool;       (* gain.connect(this.masterGain) *)
    wet : bool;          (* gain.connect(this.reverbNode) *)
    startTime : Q;
    stopTime : Q }.

(** The three private fields of the class, then what the browser holds on
    its behalf: how many audio contexts were constructed, the voices
    started so far, and how many times [ctx.resume()] was called. *)
Record t : Type := mk
  { ctx : option AudioContext;
    reverbNode : option ConvolverNode;
    masterGain : option GainNode;
    contexts : nat;
    voices : list Voice;
    resumeCalls : nat }.

(** [new AudioService()] *)
Definition constructor : t :=
  {| ctx := None; reverbNode := None; masterGain := None;
     contexts := 0; voices := []; resumeCalls := 0 |}.

(** What the browser supplies to [initialize]: the context that
    [new AudioContext()] returns, and the successive values of
    [Math.random()]. *)
Record Browser : Type := mkBrowser
  { newContext : AudioContext;
    random : nat -> Q }.

(** [createImpulseResponse(duration, decay, reverse)]; [decay] is an
    integer exponent here (the only caller passes 2.0).  The loop body
    draws two random numbers per sample, left then right. *)
Definition createImpulseResponse (b : Browser) (c : AudioContext)
    (duration : Q) (decay : Z) (reverse : bool) : AudioBuffer :=
  let sampleRate := sampleRate c in
  let length := sampleRate * duration in
  let sample (k : nat) (i : nat) : Q :=
    let n := if reverse then length - inject_Z (Z.of_nat i) else inject_Z (Z.of_nat i) in
    if Qlt_bool (inject_Z (Z.of_nat i)) length
    then (random b k * 2 - 1) * Qpower (1 - n / length) decay
    else 0 in
  {| numberOfChannels := 2; length := length; bufferRate := sampleRate;
     left := fun i => sample (2 * i)%nat i;
     right := fun i => sample (2 * i + 1)%nat i |}.

(** [initialize] up to its [await]: the early return, or the creation of
    the context, the master gain and the convolver, and the impulse
    response whose promise is awaited. *)
Definition initializeStart (b : Browser) (s : t) : t * option AudioBuffer :=
  match ctx s with
  | Some _ => (s, None)
  | None =>
      let c := newContext b in
      let s1 :=
        {| ctx := Some c;
           reverbNode := Some {| buffer := None; toMaster := false |};
           masterGain := Some {| gainValue := 4 # 10; toDestination := true |};
           contexts := S (contexts s);
           voices := voices s;
           resumeCalls := resumeCalls s |} in
      (s1, Some (createImpulseResponse b c 2 2 false))
  end.

(** [initialize] after its [await]: the buffer is assigned and the
    convolver is connected to the master gain. *)
Definition initializeFinish (pending : option AudioBuffer) (s : t) : t :=
  match pending with
  | None => s
  | Some impulse =>
      {| ctx := ctx s;
         reverbNode :=
           match reverbNode s with
           | Some _ => Some {| buffer := Some impulse; toMaster := true |}
           | None => None
           end;
         masterGain := masterGain s;
         contexts := contexts s;
         voices := voices s;
         resumeCalls := resumeCalls s |}
  end.

(** [await audioService.initialize()] *)
Definition initialize (b : Browser) (s : t) : t :=
  let '(s1, pending) := initializeStart b s in
  initializeFinish pending s1.

(** [resume]: when there is a context and its state reads ['suspended'],
    [ctx.resume()] is called.  The method assigns nothing; the state of the
    context is the browser's to change, later (see [stateChanged] below). *)
Definition resume (s : t) : t :=
  match ctx s with
  | Some c =>
      match state c with
      | suspended =>
          {| ctx := ctx s; reverbNode := reverbNode s; masterGain := masterGain s;
             contexts := contexts s; voices := voices s;
             resumeCalls := S (resumeCalls s) |}
      | _ => s
      end
  | None => s
  end.

Definition baseFreq : Q := 200.
Definition freqRange : Q := 600.

Definition freq (normalizedX : Q) : Q := baseFreq + normalizedX * freqRange.

Definition quantizedFreq (normalizedX : Q) : Q :=
  inject_Z (Math_round (freq normalizedX / 50)) * 50.

(** [playPluck(normalizedX)], called when [this.ctx.currentTime] is
    [currentTime]. *)
Definition playPluck (currentTime : Q) (normalizedX : Q) (s : t) : t :=
  match ctx s, masterGain s, reverbNode s with
  | Some _, Some _, Some _ =>
      let voice :=
        {| oscType := triangle;
           frequency := [setValueAtTime (quantizedFreq normalizedX) currentTime];
           envelope :=
             [setValueAtTime 0 currentTime;
              linearRampToValueAtTime (8 # 10) (currentTime + (1 # 100));
              exponentialRampToValueAtTime (1 # 1000) (currentTime + (3 # 2))];
           direct := true;
           wet := true;
           startTime := currentTime;
           stopTime := currentTime + 2 |} in
      {| ctx := ctx s; reverbNode := reverbNode s; masterGain := masterGain s;
         contexts := contexts s; voices := voices s ++ [voice];
         resumeCalls := resumeCalls s |}
  | _, _, _ => s
  end.

(** The lifecycle state [ready]: all three fields are set. *)
Definition ready (s : t) : bool :=
  match ctx s, masterGain s, reverbNode s with
  | Some _, Some _, Some _ => true
  | _, _, _ => false
  end.

(** The public methods as calls, and a sequence of calls in order. *)
Inductive Call : Type :=
| callInitialize (b : Browser)
| callResume
| callPlayPluck (currentTime normalizedX : Q).

Definition perform (c : Call) (s : t) : t :=
  match c with
  | callInitialize b => initialize b s
  | callResume => resume s
  | callPlayPluck currentTime normalizedX => playPluck currentTime normalizedX s
  end.

Definition performAll (cs : list Call) (s : t) : t :=
  fold_left (fun s c => perform c s) cs s.

(** The service as the event loop runs it.  A call of [initialize] is not
    atomic: it runs up to its [await], and its remainder runs once the
    promise of the impulse response is settled; other calls can come in
    between.  [awaiting] holds the impulse responses of the calls that are
    suspended at their [await], oldest first. *)
Record Run : Type := mkRun
  { service : t;
    awaiting : list AudioBuffer }.

Definition start : Run := {| service := constructor; awaiting := [] |}.

(** The browser changes the state of the context: a resume or a suspension
    takes effect, or the context is closed. *)
Definition setState (st : ContextState) (s : t) : t :=
  match ctx s with
  | Some c =>
      {| ctx := Some {| state := st; sampleRate := sampleRate c |};
         reverbNode := reverbNode s; masterGain := masterGain s;
         contexts := contexts s; voices := voices s;
         resumeCalls := resumeCalls s |}
  | None => s
  end.

Inductive Event : Type :=
| initializeCalled (b : Browser)
| initializeResumed
| resumeCalled
| playPluckCalled (currentTime normalizedX : Q)
| stateChanged (st : ContextState).

Definition react (e : Event) (r : Run) : Run :=
  match e with
  | initializeCalled b =>
      let '(s1, pending) := initializeStart b (service r) in
      {| service := s1;
         awaiting := awaiting r ++ match pending with Some impulse => [impulse] | None => [] end |}
  | initializeResumed =>
      match awaiting r with
      | impulse :: rest =>
          {| service := initializeFinish (Some impulse) (service r); awaiting := rest |}
      | [] => r
      end
  | resumeCalled => {| service := resume (service r); awaiting := awaiting r |}
  | playPluckCalled currentTime normalizedX =>
      {| service := playPluck currentTime normalizedX (service r); awaiting := awaiting r |}
  | stateChanged st => {| service := setState st (service r); awaiting := awaiting r |}
  end.

Definition reactAll (es : list Event) (r : Run) : Run :=
  fold_left (fun r e => react e r) es r.

End AudioService.

(** ** The numerical kernel on doubles *)

(** The arithmetic of [getLineIntersection] and of [playPluck] as the
    source carries it out: every [number] is an IEEE 754 binary64 value,
    every operator rounds to nearest (ties to even) and comparisons with
    NaN are false. *)
Module Binary64.
Local Open Scope float_scope.

Module Point.
Record t : Type := mk { x : float; y : float }.
End Point.
Import Point.

(** [src/utils/math.ts].  Segment 1: p1 -> p2, segment 2: p3 -> p4. *)
Definition getLineIntersection (p1 p2 p3 p4 : Point.t) : bool :=
  let det := (x p2 - x p1) * (y p4 - y p3) - (x p4 - x p3) * (y p2 - y p1) in
  if det =? 0 then false
  else
    let lambda := ((y p4 - y p3) * (x p4 - x p1) + (x p3 - x p4) * (y p4 - y p1)) / det in
    let gamma := ((y p1 - y p2) * (x p4 - x p1) + (x p2 - x p1) * (y p4 - y p1)) / det in
    ((0 <? lambda) && (lambda <? 1)) && ((0 <? gamma) && (gamma <? 1)).

(** The integer nearest to the double of sign [s], mantissa [m] and
    exponent [-p], a tie going to the larger one:
    [floor (n / 2^p + 1/2)] for [n = m] or [n = -m]. *)
Definition nearestInteger (s : bool) (m p : positive) : Z :=
  let n := if s then Z.neg m else Z.pos m in
  ((2 * n + 2 ^ Z.pos p) / 2 ^ (Z.pos p + 1))%Z.

(** The double of an integer, with the sign [s] when the integer is 0. *)
Definition ofInteger (s : bool) (k : Z) : float :=
  SF2Prim (binary_normalize prec emax k 0 s).

(** [Math.round]: a NaN, an infinity, a zero and an integral value are
    returned as they are; any other value has a negative exponent, and the
    result is the nearest integer, a tie going to the larger one, with the
    sign of the argument when it is zero. *)
Definition Math_round (v : float) : float :=
  match Prim2SF v with
  | S754_finite s m (Z.neg p) => ofInteger s (nearestInteger s m p)
  | _ => v
  end.

(** A value that a Web Audio method accepts as a number: not NaN and not
    an infinity. *)
Definition isFinite (v : float) : bool :=
  match Prim2SF v with
  | S754_zero _ | S754_finite _ _ _ => true
  | _ => false
  end.

Inductive Automation : Type :=
| setValueAtTime (value time : float)
| linearRampToValueAtTime (value time : float)
| exponentialRampToValueAtTime (value time : float).

Record Voice : Type := mkVoice
  { oscType : AudioService.OscillatorType;
    frequency : list Automation;
    envelope : list Automation;
    direct : bool;       (* gain.connect(this.masterGain) *)
    wet : bool;          (* gain.connect(this.reverbNode) *)
    startTime : float;
    stopTime : float }.

(** The three fields that [playPluck] tests, and the voices started. *)
Record Service : Type := mkService
  { ctx : option AudioService.AudioContext;
    reverbNode : option AudioService.ConvolverNode;
    masterGain : option AudioService.GainNode;
    voices : list Voice }.

Definition ready (s : Service) : bool :=
  match ctx s, masterGain s, reverbNode s with
  | Some _, Some _, Some _ => true
  | _, _, _ => false
  end.

Definition baseFreq : float := 200.
Definition freqRange : float := 600.

(** [playPluck(normalizedX)], called when [this.ctx.currentTime] reads
    [currentTime] (a finite double, not negative).  [None] is the
    TypeError that [setValueAtTime] raises for a frequency that is not
    finite; the oscillator is then neither connected nor started. *)
Definition playPluck (currentTime normalizedX : float) (s : Service) : option Service :=
  match ctx s, masterGain s, reverbNode s with
  | Some _, Some _, Some _ =>
      let freq := baseFreq + normalizedX * freqRange in
      let quantizedFreq := Math_round (freq / 50) * 50 in
      if isFinite quantizedFreq then
        let voice :=
          {| oscType := AudioService.triangle;
             frequency := [setValueAtTime quantizedFreq currentTime];
             envelope :=
               [setValueAtTime 0 currentTime;
                linearRampToValueAtTime 0.8 (currentTime + 0.01);
                exponentialRampToValueAtTime 0.001 (currentTime + 1.5)];
             direct := true;
             wet := true;
             startTime := currentTime;
             stopTime := currentTime + 2 |} in
        Some {| ctx := ctx s; reverbNode := reverbNode s; masterGain := masterGain s;
                voices := voices s ++ [voice] |}
      else None
  | _, _, _ => Some s
  end.

End Binary64.

(** ** The canvas component ([src/components/StarryCanvas.tsx]) *)

Module StarryCanvas.
Local Open Scope Q_scope.

Record Canvas : Type := mkCanvas
  { width : Q;
    height : Q;
    context2d : bool }.   (* canvas.getContext('2d') is not null *)

(** What one invocation of the [onResults] callback reads from outside:
    the refs, the detection result, and the value that
    [Date.now() + Math.random()] takes in the callback of plucker [i]. *)
Record Frame : Type := mkFrame
  { canvasRef : option Canvas;
    backgroundRef : bool;   (* the backdrop image has loaded *)
    results : HandResults.t;
    rippleId : nat -> Q }.

(** The two refs the animation loop mutates. *)
Record State : Type := mkState
  { ripplesRef : list Ripple.t;
    prevHandPosRef : gmap string Point.t }.

Definition initialState : State :=
  {| ripplesRef := []; prevHandPosRef := ∅ |}.

(** A detected crossing: the arguments of the calls
    [audioService.playPluck(normalizedX)] and
    [spawnRipple(plucker.x, plucker.y)]. *)
Record PluckEvent : Type := mkPluck
  { point : Point.t;
    normalizedPosition : Q }.

(** The log of one frame lists the events with the index of the plucker
    whose callback emitted them. *)
Definition Log : Type := list (nat * PluckEvent).

Definition spawnRipple (id : Q) (x y : Q) (s : State) : State :=
  {| ripplesRef :=
       ripplesRef s ++
       [ {| Ripple.id := id; Ripple.x := x; Ripple.y := y;
            Ripple.age := 0; Ripple.maxAge := 60; Ripple.intensity := 1 |} ];
     prevHandPosRef := prevHandPosRef s |}.

(** *** Step 2: find hands and string *)

Record Hands : Type := mkHands
  { leftIndex : option Point.t;
    rightIndex : option Point.t;
    activePluckers : list Point.t }.

Definition noHands : Hands :=
  {| leftIndex := None; rightIndex := None; activePluckers := [] |}.

(** The body of [for (const landmarks of results.multiHandLandmarks)].
    Reading [landmarks[8]] or [landmarks[12]] out of range gives
    [undefined], whose [.x] raises a TypeError: [None]. *)
Definition scanHand (width height : Q) (acc : Hands)
    (landmarks : list HandLandmark.t) : option Hands :=
  match landmarks !! 8%nat, landmarks !! 12%nat with
  | Some l8, Some l12 =>
      let indexTip :=
        {| Point.x := HandLandmark.x l8 * width; Point.y := HandLandmark.y l8 * height |} in
      let middleTip :=
        {| Point.x := HandLandmark.x l12 * width; Point.y := HandLandmark.y l12 * height |} in
      Some
        match leftIndex acc with
        | None =>
            {| leftIndex := Some indexTip; rightIndex := rightIndex acc;
               activePluckers := activePluckers acc ++ [middleTip] |}
        | Some _ =>
            match rightIndex acc with
            | None =>
                {| leftIndex := leftIndex acc; rightIndex := Some indexTip;
                   activePluckers := activePluckers acc ++ [middleTip] |}
            | Some _ =>
                {| leftIndex := leftIndex acc; rightIndex := rightIndex acc;
                   activePluckers := activePluckers acc ++ [middleTip] |}
            end
        end
  | _, _ => None
  end.

Fixpoint scanHands (width height : Q) (hands : list (list HandLandmark.t))
    (acc : Hands) : option Hands :=
  match hands with
  | [] => Some acc
  | landmarks :: rest =>
      match scanHand width height acc landmarks with
      | Some acc' => scanHands width height rest acc'
      | None => None
      end
  end.

Definition findHands (width height : Q) (results : HandResults.t) : option Hands :=
  match HandResults.multiHandLandmarks results with
  | Some hands => scanHands width height hands noHands
  | None => Some noHands
  end.

(** *** Step 3: check collisions *)

(** The template literal [`plucker-${i}`]. *)
Definition pluckerKey (i : nat) : string := "plucker-" +:+ pretty i.

(** The callback of [activePluckers.forEach((plucker, i) => ...)]. *)
Definition pluckerCallback (f : Frame) (width : Q) (leftIndex rightIndex : Point.t)
    (plucker : Point.t) (i : nat) (acc : State * Log) : State * Log :=
  let '(s, log) := acc in
  let key := pluckerKey i in
  let '(s1, log1) :=
    match prevHandPosRef s !! key with
    | Some prev =>
        if MathUtils.getLineIntersection prev plucker leftIndex rightIndex then
          let normalizedX := Point.x plucker / width in
          (spawnRipple (rippleId f i) (Point.x plucker) (Point.y plucker) s,
           log ++ [(i, {| point := plucker; normalizedPosition := normalizedX |})])
        else (s, log)
    | None => (s, log)
    end in
  ({| ripplesRef := ripplesRef s1;
      prevHandPosRef := <[key := plucker]> (prevHandPosRef s1) |}, log1).

(** [forEach] over the pluckers from index [i] on. *)
Fixpoint forEachPlucker (f : Frame) (width : Q) (leftIndex rightIndex : Point.t)
    (i : nat) (pluckers : list Point.t) (acc : State * Log) : State * Log :=
  match pluckers with
  | [] => acc
  | plucker :: rest =>
      forEachPlucker f width leftIndex rightIndex (S i) rest
        (pluckerCallback f width leftIndex rightIndex plucker i acc)
  end.

Definition checkCollisions (f : Frame) (width : Q) (h : Hands) (s : State) : State * Log :=
  match leftIndex h, rightIndex h with
  | Some l, Some r => forEachPlucker f width l r 0 (activePluckers h) (s, [])
  | _, _ =>
      (* Reset history if hands lost to prevent teleport glitches *)
      ({| ripplesRef := ripplesRef s; prevHandPosRef := ∅ |}, [])
  end.

(** *** Step 4: ripples *)

(** [ripple.age++] *)
Definition ageRipple (r : Ripple.t) : Ripple.t :=
  {| Ripple.id := Ripple.id r; Ripple.x := Ripple.x r; Ripple.y := Ripple.y r;
     Ripple.age := Ripple.age r + 1;
     Ripple.maxAge := Ripple.maxAge r; Ripple.intensity := Ripple.intensity r |}.

Definition life (r : Ripple.t) : Q := 1 - Ripple.age r / Ripple.maxAge r.

(** The ripples for which the [forEach] callback reaches its drawing code,
    given the ripples after their [age++]. *)
Definition drawnRipples (aged : list Ripple.t) : list Ripple.t :=
  List.filter (fun r => negb (Qle_bool (life r) 0)) aged.

(** The [forEach] that ages every ripple, then the cleanup [filter]. *)
Definition advanceRipples (rs : list Ripple.t) : list Ripple.t :=
  List.filter (fun r => Qlt_bool (Ripple.age r) (Ripple.maxAge r))
    (List.map ageRipple rs).

(** *** The callback *)

(** How far an invocation gets: it raises a TypeError, it takes the early
    return, or it reaches the ripple pass with a state and a log. *)
Inductive Outcome : Type :=
| Raised
| Returned
| Continues (s : State) (log : Log).

(** [onResults] up to and including step 3. *)
Definition upToCollisions (f : Frame) (s : State) : Outcome :=
  match canvasRef f with
  | Some canvas =>
      if context2d canvas && backgroundRef f then
        match findHands (width canvas) (height canvas) (results f) with
        | Some h =>
            let '(s1, log) := checkCollisions f (width canvas) h s in
            Continues s1 log
        | None => Raised
        end
      else Returned
  | None => Returned
  end.

(** [None] is a raised TypeError; the early return leaves the state as it
    was and logs nothing. *)
Definition onResults (f : Frame) (s : State) : option (State * Log) :=
  match upToCollisions f s with
  | Raised => None
  | Returned => Some (s, [])
  | Continues s1 log =>
      Some ({| ripplesRef := advanceRipples (ripplesRef s1);
               prevHandPosRef := prevHandPosRef s1 |}, log)
  end.

(** The frame loop: the callback once per detection result, for as long
    as it does not raise. *)
Fixpoint runFrames (fs : list Frame) (s : State) : option State :=
  match fs with
  | [] => Some s
  | f :: rest =>
      match onResults f s with
      | Some (s', _) => runFrames rest s'
      | None => None
      end
  end.

(** *** Vocabulary for the statements below *)

(** The canvas, when the callback gets past its early return. *)
Definition surface (f : Frame) : option Canvas :=
  match canvasRef f with
  | Some canvas => if context2d canvas && backgroundRef f then Some canvas else None
  | None => None
  end.

Definition detectedHands (f : Frame) : list (list HandLandmark.t) :=
  match HandResults.multiHandLandmarks (results f) with
  | Some hands => hands
  | None => []
  end.

(** Each hand has the landmarks the callback reads (indices 8 and 12). *)
Definition fixedLayout (f : Frame) : bool :=
  forallb (fun landmarks => (12 <? List.length landmarks)%nat) (detectedHands f).

(** The pluckers of a frame, in pixel coordinates: one per detected hand. *)
Definition detectedPluckers (f : Frame) : list Point.t :=
  match surface f with
  | Some canvas =>
      match findHands (width canvas) (height canvas) (results f) with
      | Some h => activePluckers h
      | None => []
      end
  | None => []
  end.

(** The ripple that the event of a log entry spawns. *)
Definition spawnedBy (f : Frame) (e : nat * PluckEvent) : Ripple.t :=
  {| Ripple.id := rippleId f (fst e);
     Ripple.x := Point.x (point (snd e)); Ripple.y := Point.y (point (snd e));
     Ripple.age := 0; Ripple.maxAge := 60; Ripple.intensity := 1 |}.

(** A ripple with identifier [i] is in the live set. *)
Definition alive (i : Q) (rs : list Ripple.t) : bool :=
  existsb (fun r => Qeq_bool (Ripple.id r) i) rs.

(** The live set that the ripple pass of frame number [j] (from 1) of the
    run iterates over, and the live set after [j] frames. *)
Fixpoint liveDuring (fs : list Frame) (s : State) (j : nat) : option (list Ripple.t) :=
  match fs, j with
  | f :: _, 1%nat =>
      match upToCollisions f s with
      | Continues s1 _ => Some (ripplesRef s1)
      | _ => None
      end
  | f :: rest, S j' =>
      match onResults f s with
      | Some (s', _) => liveDuring rest s' j'
      | None => None
      end
  | _, _ => None
  end.

Definition liveAfter (fs : list Frame) (s : State) (j : nat) : option (list Ripple.t) :=
  match runFrames (take j fs) s with
  | Some s' => Some (ripplesRef s')
  | None => None
  end.

(** The events of a log that the callback of plucker [i] emitted. *)
Definition eventsOf (i : nat) (log : Log) : list PluckEvent :=
  List.map snd (List.filter (fun e => (fst e =? i)%nat) log).

(** What one callback logs, as a function of the history it reads. *)
Definition crossingLog (width : Q) (leftIndex rightIndex : Point.t)
    (plucker : Point.t) (i : nat) (history : gmap string Point.t) : Log :=
  match history !! pluckerKey i with
  | Some prev =>
      if MathUtils.getLineIntersection prev plucker leftIndex rightIndex then
        [(i, {| point := plucker; normalizedPosition := Point.x plucker / width |})]
      else []
  | None => []
  end.

(** The history after the callbacks of the pluckers from index [i] on. *)
Fixpoint updatedHistory (i : nat) (pluckers : list Point.t)
    (history : gmap string Point.t) : gmap string Point.t :=
  match pluckers with
  | [] => history
  | plucker :: rest => updatedHistory (S i) rest (<[pluckerKey i := plucker]> history)
  end.

(** What these callbacks log, one after the other. *)
Fixpoint collisionLog (width : Q) (leftIndex rightIndex : Point.t) (i : nat)
    (pluckers : list Point.t) (history : gmap string Point.t) : Log :=
  match pluckers with
  | [] => []
  | plucker :: rest =>
      crossingLog width leftIndex rightIndex plucker i history
      ++ collisionLog width leftIndex rightIndex (S i) rest
           (<[pluckerKey i := plucker]> history)
  end.

(** The log of the frame [f] run from the state [s]. *)
Definition frameLog (f : Frame) (s : State) : Log :=
  match onResults f s with
  | Some (_, log) => log
  | None => []
  end.

(** The callback of the frame runs its update: it gets past the early
    return and finds the landmarks it reads. *)
Definition updates (f : Frame) : bool :=
  match surface f with
  | Some _ => fixedLayout f
  | None => false
  end.

(** Every ripple with identifier [i] in the set has age [a] and the
    lifetime that [spawnRipple] gives. *)
Definition cohort (i : Q) (a : Q) (rs : list Ripple.t) : Prop :=
  forall r, In r rs -> Ripple.id r == i -> Ripple.age r == a /\ Ripple.maxAge r == 60.

(** The history holds no key but those of the first two pluckers. *)
Definition twoSlots (s : State) : Prop :=
  forall key, is_Some (prevHandPosRef s !! key) ->
              key = pluckerKey 0 \/ key = pluckerKey 1.

End StarryCanvas.

(** ** Scenarios *)

Module Scenario.
Local Open Scope Q_scope.
Import StarryCanvas.

Definition origin : HandLandmark.t := HandLandmark.mk 0 0 0.

(** A hand of 21 landmarks with the given index tip (8) and middle tip (12). *)
Definition hand (indexTip middleTip : Q * Q) : list HandLandmark.t :=
  replicate 8 origin ++ [HandLandmark.mk (fst indexTip) (snd indexTip) 0]
  ++ replicate 3 origin ++ [HandLandmark.mk (fst middleTip) (snd middleTip) 0]
  ++ replicate 8 origin.

(** A loaded 100 x 100 surface seeing the given hands. *)
Definition frame (hands : list (list HandLandmark.t)) (id : Q) : Frame :=
  {| canvasRef := Some {| width := 100; height := 100; context2d := true |};
     backgroundRef := true;
     results := HandResults.mk (Some hands);
     rippleId := fun _ => id |}.

(** The string from (0,0) to (100,0); the plucker of the first hand is at
    (50,-10), then at (50,10); the plucker of the second hand rests. *)
Definition above : Frame :=
  frame [hand (0, 0) (1 # 2, - (1 # 10)); hand (1, 0) (9 # 10, 1 # 2)] 7.

Definition below : Frame :=
  frame [hand (0, 0) (1 # 2, 1 # 10); hand (1, 0) (9 # 10, 1 # 2)] 7.

(** The same plucker when it stays above the string, at (50,-1). *)
Definition stillAbove : Frame :=
  frame [hand (0, 0) (1 # 2, - (1 # 100)); hand (1, 0) (9 # 10, 1 # 2)] 7.

(** One hand only. *)
Definition oneHand : Frame :=
  frame [hand (0, 0) (1 # 2, 1 # 10)] 8.

(** Three hands, then two: the third key stays in the history. *)
Definition threeHands : Frame :=
  frame [hand (0, 0) (1 # 2, 1 # 10); hand (1, 0) (9 # 10, 1 # 2);
         hand (1 # 2, 1 # 2) (1 # 5, 1 # 5)] 8.

(** Two hands again, nothing crossing, another identifier. *)
Definition idle : Frame :=
  frame [hand (0, 0) (1 # 2, 1 # 10); hand (1, 0) (9 # 10, 1 # 2)] 8.

End Scenario.

(** ** The start button, and the audio calls of a frame *)

Module App.
Import StarryCanvas.

(** The audio service singleton and the [permissionGranted] state of the
    component. *)
Record State : Type := mkApp
  { audio : AudioService.t;
    permissionGranted : bool }.

(** [handleStart]: [await audioService.initialize()], then
    [audioService.resume()], then [setPermissionGranted(true)]. *)
Definition handleStart (b : AudioService.Browser) (s : State) : State :=
  {| audio := AudioService.resume (AudioService.initialize b (audio s));
     permissionGranted := true |}.



End App.

(** ** Further vocabulary *)

(** A landmark in pixel coordinates, as the callback scales it. *)
Definition toPixels (width height : Q) (l : HandLandmark.t) : Point.t :=
  {| Point.x := (HandLandmark.x l * width)%Q; Point.y := (HandLandmark.y l * height)%Q |}.

(** The number of ripples of age at most [k]. *)
Definition youngerThan (k : nat) (rs : list Ripple.t) : nat :=
  List.length (List.filter (fun r => Qle_bool (Ripple.age r) (inject_Z (Z.of_nat k))) rs).

(** A ripple as the simulator keeps it between two frames. *)
Definition liveRipple (r : Ripple.t) : Prop :=
  (exists k : nat, (1 <= k <= 59)%nat /\ Ripple.age r == inject_Z (Z.of_nat k))%Q
  /\ (Ripple.maxAge r == 60)%Q /\ (Ripple.intensity r == 1)%Q.

(** The slots of a log, in order. *)
Definition slots (log : StarryCanvas.Log) : list nat := List.map fst log.

(** The runs of the audio service that a sequence of events can reach. *)
Definition reachable (r : AudioService.Run) : Prop :=
  exists es : list AudioService.Event, r = AudioService.reactAll es AudioService.start.

(** The three shapes of a run: as constructed; between the [await] of
    [initialize] and its remainder (the three fields are set, the reverb
    has no buffer and feeds nothing, one call is suspended); and with the
    graph built (the reverb has its impulse and feeds the master gain, no
    call is suspended). *)
Definition asConstructed (r : AudioService.Run) : Prop := r = AudioService.start.

Definition awaitingImpulse (r : AudioService.Run) : Prop :=
  let a := AudioService.service r in
  AudioService.ready a = true /\ AudioService.contexts a = 1%nat /\
  AudioService.masterGain a = Some (AudioService.mkGain (4 # 10)%Q true) /\
  AudioService.reverbNode a = Some (AudioService.mkConvolver None false) /\
  exists impulse : AudioService.AudioBuffer, AudioService.awaiting r = [impulse].

Definition graphBuilt (r : AudioService.Run) : Prop :=
  let a := AudioService.service r in
  AudioService.ready a = true /\ AudioService.contexts a = 1%nat /\
  AudioService.masterGain a = Some (AudioService.mkGain (4 # 10)%Q true) /\
  (exists impulse : AudioService.AudioBuffer,
      AudioService.reverbNode a = Some (AudioService.mkConvolver (Some impulse) true)) /\
  AudioService.awaiting r = [].

(** The context of the service, if any, reads ['suspended']. *)
Definition isSuspended (a : AudioService.t) : bool :=
  match AudioService.ctx a with
  | Some c =>
      match AudioService.state c with
      | AudioService.suspended => true
      | _ => false
      end
  | None => false
  end.

(** Classes of doubles. *)
Definition isZero (v : spec_float) : bool :=
  match v with S754_zero _ => true | _ => false end.

Definition isNaN (v : spec_float) : bool :=
  match v with S754_nan => true | _ => false end.

Definition zeroOrNaN (v : spec_float) : bool := isZero v || isNaN v.

(** The exact value of a finite double. *)
Definition valueOf (v : float) : option Q :=
  match Prim2SF v with
  | S754_zero _ => Some 0%Q
  | S754_finite s m e =>
      let a := (inject_Z (Z.pos m) * Qpower 2 e)%Q in
      Some (if s then (- a)%Q else a)
  | _ => None
  end.

(** The number of [playPluck] calls in a sequence of calls. *)
Definition plucks (cs : list AudioService.Call) : nat :=
  List.length (List.filter
    (fun c => match c with AudioService.callPlayPluck _ _ => true | _ => false end) cs).


(** * Properties *)

(** ** Comparisons *)

Lemma Qlt_bool_iff (a b : Q) : Qlt_bool a b = true <-> (a < b)%Q.
Proof.
  unfold Qlt_bool. rewrite negb_true_iff, <- not_true_iff_false, Qle_bool_iff.
  split; intros H; [apply Qnot_le_lt | apply Qlt_not_le]; exact H.
Qed.

(** ** The segment-intersection test *)

(** *** Doubles: signs, zeros and NaN *)

Section Doubles.

Lemma binary_round_aux_sign (s : bool) (m e : Z) (l : location) :
  binary_round_aux prec emax (negb s) m e l = SFopp (binary_round_aux prec emax s m e l).
Proof.
  unfold binary_round_aux.
  destruct (shr_fexp prec emax m e l) as [mrs' e'].
  destruct (shr_fexp prec emax _ e' loc_Exact) as [mrs'' e''].
  destruct (shr_m mrs''); [reflexivity | | reflexivity].
  destruct (e'' <=? emax - prec)%Z; reflexivity.
Qed.

Lemma binary_round_sign (s : bool) (m : positive) (e : Z) :
  binary_round prec emax (negb s) m e = SFopp (binary_round prec emax s m e).
Proof.
  unfold binary_round.
  destruct (shl_align m e _) as [mz ez]. apply binary_round_aux_sign.
Qed.

(** Opposite integers are rounded to opposite doubles. *)
Lemma binary_normalize_opp (m e : Z) :
  SFabs (binary_normalize prec emax (- m) e false)
  = SFabs (binary_normalize prec emax m e false).
Proof.
  pose proof (fun p => binary_round_sign false p e) as H. cbn [negb] in H.
  destruct m as [| p | p]; [reflexivity | |].
  - change (- Z.pos p)%Z with (Z.neg p). cbn [binary_normalize]. rewrite H.
    destruct (binary_round prec emax false p e); reflexivity.
  - change (- Z.neg p)%Z with (Z.pos p). cbn [binary_normalize]. rewrite H.
    destruct (binary_round prec emax false p e); reflexivity.
Qed.

(** [b - a] and [a - b] differ by their sign at most. *)
Lemma SFsub_swap (a b : spec_float) :
  SFabs (SF64sub b a) = SFabs (SF64sub a b).
Proof.
  unfold SF64sub.
  destruct a as [sa | sa | | sa ma ea], b as [sb | sb | | sb mb eb];
    try (destruct sa, sb; reflexivity); try (destruct sa; reflexivity);
    try (destruct sb; reflexivity); try reflexivity.
  cbn [SFsub]. rewrite (Z.min_comm eb ea).
  rewrite <- binary_normalize_opp. f_equal. f_equal. lia.
Qed.

Lemma SFeqb_zero (v : spec_float) : SFeqb v (S754_zero false) = isZero v.
Proof. destruct v as [s | s | | s m e]; try reflexivity; destruct s; reflexivity. Qed.

Lemma isZero_abs (v : spec_float) : isZero (SFabs v) = isZero v.
Proof. destruct v; reflexivity. Qed.

(** [a - a] is a zero, or NaN when [a] is not finite. *)
Lemma SFsub_diag (a : spec_float) : zeroOrNaN (SF64sub a a) = true.
Proof.
  unfold SF64sub. destruct a as [s | s | | s m e];
    try (destruct s; reflexivity); try reflexivity.
  cbn [SFsub]. rewrite Z.sub_diag. reflexivity.
Qed.

Local Open Scope float_scope.

Lemma eqb_zero (v : float) : (v =? 0) = isZero (Prim2SF v).
Proof.
  rewrite FloatAxioms.eqb_spec. change (Prim2SF 0) with (S754_zero false).
  apply SFeqb_zero.
Qed.

Lemma abs_sub_swap (a b : float) : abs (b - a) = abs (a - b).
Proof. apply Prim2SF_inj. rewrite !abs_spec, !sub_spec. apply SFsub_swap. Qed.

Lemma sub_swap_zero (a b : float) : (b - a =? 0) = (a - b =? 0).
Proof.
  rewrite !eqb_zero, !sub_spec, <- (isZero_abs (SF64sub _ _)), SFsub_swap, isZero_abs.
  reflexivity.
Qed.



Lemma sub_diag (a : float) : zeroOrNaN (Prim2SF (a - a)) = true.
Proof. rewrite sub_spec. apply SFsub_diag. Qed.




End Doubles.

Section Intersection.
Local Open Scope float_scope.
Import Binary64 Binary64.Point.


End Intersection.

Section IntersectionClaims.
Local Open Scope float_scope.
Import Binary64 Binary64.Point.




(** C7, as stated, fails.  For the same two segments, which touch at the
    endpoint (0.2, 0), the test is true in one order and false in the
    other. *)
Lemma getLineIntersection_swap_counterexample :
  let p1 := Point.mk 0.9 0.3 in
  let p2 := Point.mk 0.2 0 in
  let p3 := Point.mk 0.2 0 in
  let p4 := Point.mk 0.9 0.2 in
  getLineIntersection p1 p2 p3 p4 = true /\
  getLineIntersection p3 p4 p1 p2 = false.
Proof. vm_compute. split; reflexivity. Qed.

(** C7, amended.  When the two segments exchange their roles the
    determinant is the difference of the same two products taken the other
    way round: it keeps its magnitude, and it is 0 for one order exactly
    when it is 0 for the other.  Both orders then return false. *)
Theorem getLineIntersection_swap_det (p1 p2 p3 p4 : Point.t) :
  let det := (x p2 - x p1) * (y p4 - y p3) - (x p4 - x p3) * (y p2 - y p1) in
  let det' := (x p4 - x p3) * (y p2 - y p1) - (x p2 - x p1) * (y p4 - y p3) in
  abs det' = abs det /\
  (det' =? 0) = (det =? 0) /\
  ((det =? 0) = true ->
   getLineIntersection p1 p2 p3 p4 = false /\ getLineIntersection p3 p4 p1 p2 = false).
Proof.
  intros det det'. split; [apply abs_sub_swap |]. split; [apply sub_swap_zero |].
  intros Hd. split.
  - unfold getLineIntersection. fold det. cbv zeta. rewrite Hd. reflexivity.
  - unfold getLineIntersection. fold det'. cbv zeta.
    unfold det', det in *. rewrite sub_swap_zero, Hd. reflexivity.
Qed.

(** Two parallel strings, in either order. *)
Lemma getLineIntersection_swap_det_witness :
  let a := Point.mk 0 0 in
  let b := Point.mk 100 0 in
  let c := Point.mk 0 10 in
  let d := Point.mk 100 10 in
  ((x b - x a) * (y d - y c) - (x d - x c) * (y b - y a) =? 0) = true /\
  getLineIntersection a b c d = false /\ getLineIntersection c d a b = false.
Proof.
  intros a b c d.
  assert (Hd : ((x b - x a) * (y d - y c) - (x d - x c) * (y b - y a) =? 0) = true)
    by (vm_compute; reflexivity).
  split; [exact Hd |].
  exact (proj2 (proj2 (getLineIntersection_swap_det a b c d)) Hd).
Defined.

End IntersectionClaims.

(** ** The audio trigger *)

Section Quantization.
Local Open Scope Q_scope.
Import AudioService.






End Quantization.

Section AudioClaims.
Local Open Scope Q_scope.
Import AudioService.

Lemma initialize_noop (b : Browser) (s : t) :
  ctx s <> None -> initialize b s = s.
Proof.
  intros H. unfold initialize, initializeStart.
  destruct (ctx s); [reflexivity | contradiction].
Qed.

Lemma ready_ctx (s : t) : ready s = true -> ctx s <> None.
Proof. unfold ready. destruct (ctx s); [discriminate | discriminate]. Qed.

(** Once ready, the service stays ready and its context count does not
    change, whatever method is called. *)
Lemma perform_ready (c : Call) (s : t) :
  ready s = true -> ready (perform c s) = true /\ contexts (perform c s) = contexts s.
Proof.
  intros Hr. destruct c as [b | | now x]; simpl.
  - rewrite (initialize_noop b s (ready_ctx s Hr)). split; [exact Hr | reflexivity].
  - unfold resume.
    destruct (ctx s) as [c |] eqn:Hctx; [| split; [exact Hr | reflexivity]].
    destruct (state c); try (split; [exact Hr | reflexivity]).
    unfold ready in *. rewrite Hctx in Hr. simpl.
    destruct (masterGain s), (reverbNode s); try discriminate.
    split; reflexivity.
  - unfold playPluck.
    destruct (ctx s) eqn:Hctx, (masterGain s) eqn:Hmg, (reverbNode s) eqn:Hrv;
      try (split; [exact Hr | reflexivity]).
    unfold ready. simpl. split; reflexivity.
Qed.

Lemma performAll_ready (cs : list Call) (s : t) :
  ready s = true ->
  ready (performAll cs s) = true /\ contexts (performAll cs s) = contexts s.
Proof.
  revert s. induction cs as [| c cs IH]; intros s Hr; simpl.
  - split; [exact Hr | reflexivity].
  - destruct (perform_ready c s Hr) as [Hr' Hc].
    destruct (IH (perform c s) Hr') as [Hr'' Hc'].
    unfold performAll in *. simpl. split; [exact Hr'' | congruence].
Qed.

(** C8.  After the first [initialize] the service is ready and one audio
    context exists.  From then on, after any sequence of further calls of
    the public methods, a call of [initialize] returns the state as it
    was, and the number of audio contexts is still one.  A second call
    made while the first one is still awaiting returns at once as well. *)
Theorem initialize_idempotent (b b' : Browser) (cs : list Call) :
  let s1 := initialize b constructor in
  let s := performAll cs s1 in
  ready s1 = true /\ contexts s1 = 1%nat
  /\ initialize b' s1 = s1
  /\ ready s = true /\ initialize b' s = s /\ contexts (initialize b' s) = 1%nat
  /\ initializeStart b' (fst (initializeStart b constructor))
     = (fst (initializeStart b constructor), None).
Proof.
  intros s1 s.
  assert (Hr1 : ready s1 = true) by reflexivity.
  destruct (performAll_ready cs s1 Hr1) as [Hr Hc]. fold s in Hr, Hc.
  assert (Hn : initialize b' s = s) by (apply initialize_noop, ready_ctx, Hr).
  repeat split; try reflexivity; try assumption.
  rewrite Hn, Hc. reflexivity.
Qed.





End AudioClaims.

(** ** The frequency of a pluck, on doubles *)

Section Rounding.
Import Binary64.

Lemma nearestInteger_bounds (s : bool) (m p : positive) :
  let n := if s then Z.neg m else Z.pos m in
  let k := nearestInteger s m p in
  (2 ^ Z.pos p * (2 * k - 1) <= 2 * n < 2 ^ Z.pos p * (2 * k + 1))%Z.
Proof.
  intros n k. unfold k, nearestInteger. fold n.
  assert (Hp : (0 < 2 ^ Z.pos p)%Z) by (apply Z.pow_pos_nonneg; lia).
  assert (Hs : (2 ^ (Z.pos p + 1) = 2 * 2 ^ Z.pos p)%Z).
  { rewrite Z.pow_add_r by lia. lia. }
  rewrite Hs.
  set (P := (2 ^ Z.pos p)%Z) in *.
  pose proof (Z.div_mod (2 * n + P) (2 * P) ltac:(lia)) as Hdm.
  pose proof (Z.mod_pos_bound (2 * n + P) (2 * P) ltac:(lia)) as Hb.
  set (q := ((2 * n + P) / (2 * P))%Z) in *.
  nia.
Qed.

Lemma Qpower_two_neg (p : positive) : (Qpower 2 (Z.neg p) == 1 / inject_Z (2 ^ Z.pos p))%Q.
Proof.
  change (Z.neg p) with (- Z.pos p)%Z.
  rewrite Qpower_opp. rewrite (Zpower_Qpower 2 (Z.pos p)) by lia.
  change (inject_Z 2) with 2%Q. field.
  apply Qpower_not_0. discriminate.
Qed.


(** The value of a double with a negative exponent lies within one half
    of its nearest integer, the upper end excluded. *)
Lemma nearestInteger_near (v : float) (s : bool) (m p : positive) :
  Prim2SF v = S754_finite s m (Z.neg p) ->
  exists q : Q,
    valueOf v = Some q /\
    (inject_Z (nearestInteger s m p) - (1 # 2) <= q)%Q /\
    (q < inject_Z (nearestInteger s m p) + (1 # 2))%Q.
Proof.
  intros Hv. unfold valueOf. rewrite Hv.
  eexists. split; [reflexivity |].
  pose proof (nearestInteger_bounds s m p) as Hb. cbv zeta in Hb.
  set (k := nearestInteger s m p) in *.
  assert (Hp : (0 < 2 ^ Z.pos p)%Z) by (apply Z.pow_pos_nonneg; lia).
  set (P := (2 ^ Z.pos p)%Z) in *.
  assert (HP : (0 < inject_Z P)%Q) by (rewrite <- (Zlt_Qlt 0); exact Hp).
  assert (Hval : ((if s then - (inject_Z (Z.pos m) * Qpower 2 (Z.neg p))
                   else inject_Z (Z.pos m) * Qpower 2 (Z.neg p))
                  == inject_Z (if s then Z.neg m else Z.pos m) / inject_Z P)%Q).
  { destruct s.
    - rewrite Qpower_two_neg. fold P.
      change (Z.neg m) with (- Z.pos m)%Z. rewrite inject_Z_opp. field. lra.
    - rewrite Qpower_two_neg. fold P. field. lra. }
  rewrite Hval. set (n := if s then Z.neg m else Z.pos m) in *.
  destruct Hb as [Hlo Hhi].
  rewrite Zle_Qle in Hlo. rewrite Zlt_Qlt in Hhi.
  rewrite !inject_Z_mult in Hlo, Hhi.
  assert (HK1 : (inject_Z (2 * k - 1) == 2 * inject_Z k - 1)%Q).
  { unfold Z.sub. rewrite inject_Z_plus, inject_Z_mult. reflexivity. }
  assert (HK2 : (inject_Z (2 * k + 1) == 2 * inject_Z k + 1)%Q).
  { rewrite inject_Z_plus, inject_Z_mult. reflexivity. }
  rewrite HK1 in Hlo. rewrite HK2 in Hhi.
  change (inject_Z 2) with 2%Q in *.
  split.
  - apply Qle_shift_div_l; [exact HP |]. nra.
  - apply Qlt_shift_div_r; [exact HP |]. nra.
Qed.

Lemma Math_round_fraction (v : float) (s : bool) (m p : positive) :
  Prim2SF v = S754_finite s m (Z.neg p) ->
  Math_round v = ofInteger s (nearestInteger s m p).
Proof. intros Hv. unfold Math_round. rewrite Hv. reflexivity. Qed.

Lemma Math_round_integral (v : float) :
  (forall s m p, Prim2SF v <> S754_finite s m (Z.neg p)) -> Math_round v = v.
Proof.
  intros H. unfold Math_round.
  destruct (Prim2SF v) as [s | s | | s m [| p | p]] eqn:Hv; try reflexivity.
  exfalso. apply (H s m p). reflexivity.
Qed.

(** From 4 to 16 the double of an integer times 50 is exact. *)
Lemma ofInteger_grid (k : Z) :
  (4 <= k <= 16)%Z ->
  exists q : Q,
    valueOf (ofInteger false k * 50)%float = Some q /\ (q == inject_Z (50 * k))%Q.
Proof.
  intros Hk.
  assert (H : (k = 4 \/ k = 5 \/ k = 6 \/ k = 7 \/ k = 8 \/ k = 9 \/ k = 10 \/ k = 11 \/
               k = 12 \/ k = 13 \/ k = 14 \/ k = 15 \/ k = 16)%Z) by lia.
  repeat (destruct H as [-> | H];
          [eexists; split; [vm_compute; reflexivity | reflexivity] |]).
  subst k. eexists. split; [vm_compute; reflexivity | reflexivity].
Qed.

End Rounding.

Section Range.
Import Binary64.
Local Open Scope Z_scope.

Lemma digits2_pos_bounds (m : positive) :
  2 ^ (Z.pos (digits2_pos m) - 1) <= Z.pos m < 2 ^ Z.pos (digits2_pos m).
Proof.
  induction m as [m IH | m IH |]; cbn [digits2_pos].
  - rewrite Pos2Z.inj_succ. replace (Z.succ (Z.pos (digits2_pos m)) - 1)
      with (Z.succ (Z.pos (digits2_pos m) - 1)) by lia.
    rewrite !Z.pow_succ_r by lia. lia.
  - rewrite Pos2Z.inj_succ. replace (Z.succ (Z.pos (digits2_pos m)) - 1)
      with (Z.succ (Z.pos (digits2_pos m) - 1)) by lia.
    rewrite !Z.pow_succ_r by lia. lia.
  - simpl. lia.
Qed.

(** A double between 4 and 16 has 53 digits and an exponent from -50 to
    -48, and its nearest integer lies between 4 and 16. *)
Lemma quotient_range (v : float) :
  (4 <=? v)%float = true -> (v <=? 16)%float = true ->
  exists m p,
    Prim2SF v = S754_finite false m (Z.neg p) /\
    4 <= nearestInteger false m p <= 16.
Proof.
  rewrite !FloatAxioms.leb_spec.
  change (Prim2SF 4) with (S754_finite false 4503599627370496 (-50)).
  change (Prim2SF 16) with (S754_finite false 4503599627370496 (-48)).
  pose proof (Prim2SF_valid v) as Hvalid.
  destruct (Prim2SF v) as [s | s | | s m e] eqn:Hv.
  - intros H. discriminate H.
  - destruct s; intros H1 H2; [discriminate H1 | discriminate H2].
  - intros H. discriminate H.
  - unfold SFleb, SFcompare. destruct s; [intros H; discriminate H |].
    intros H1 H2.
    unfold valid_binary, bounded, canonical_mantissa, fexp, emin in Hvalid.
    apply andb_prop in Hvalid as [Hcan _]. apply Z.eqb_eq in Hcan.
    change prec with 53 in Hcan. change emax with 1024 in Hcan.
    pose proof (digits2_pos_bounds m) as Hd.
    assert (He : -50 <= e <= -48).
    { split.
      - destruct (Z.compare_spec (-50) e); try lia; discriminate H1.
      - destruct (Z.compare_spec e (-48)); try lia; discriminate H2. }
    assert (Hdig : Z.pos (digits2_pos m) = 53) by lia.
    rewrite Hdig in Hd. change (2 ^ (53 - 1)) with 4503599627370496 in Hd.
    change (2 ^ 53) with 9007199254740992 in Hd.
    assert (Hcases : e = -50 \/ e = -49 \/ (e = -48 /\ Z.pos m = 4503599627370496)).
    { destruct (Z.eq_dec e (-48)) as [-> | Hne]; [| lia].
      right. right. split; [reflexivity |].
      rewrite Z.compare_refl in H2.
      pose proof (Pos.compare_spec m 4503599627370496) as Hs.
      unfold Pos.compare in Hs. destruct Hs as [Hs | Hs | Hs].
      - subst m. reflexivity.
      - apply Pos2Z.pos_lt_pos in Hs. lia.
      - discriminate H2. }
    destruct Hcases as [-> | [-> | [-> Hm]]].
    + exists m, 50%positive. split; [reflexivity |].
      pose proof (nearestInteger_bounds false m 50) as Hb. cbv beta iota zeta in Hb.
      change (2 ^ Z.pos 50) with 1125899906842624 in Hb. lia.
    + exists m, 49%positive. split; [reflexivity |].
      pose proof (nearestInteger_bounds false m 49) as Hb. cbv beta iota zeta in Hb.
      change (2 ^ Z.pos 49) with 562949953421312 in Hb. lia.
    + exists m, 48%positive. split; [reflexivity |].
      pose proof (nearestInteger_bounds false m 48) as Hb. cbv beta iota zeta in Hb.
      change (2 ^ Z.pos 48) with 281474976710656 in Hb. lia.
Qed.

End Range.

Section FrequencyClaim.
Import Binary64.
Local Open Scope float_scope.

Lemma playPluck_voice64 (currentTime x : float) (s : Service) :
  ready s = true ->
  playPluck currentTime x s =
  let quantizedFreq := Math_round ((200 + x * 600) / 50) * 50 in
  if isFinite quantizedFreq then
    Some {| ctx := ctx s; reverbNode := reverbNode s; masterGain := masterGain s;
            voices := voices s ++
              [{| oscType := AudioService.triangle;
                  frequency := [setValueAtTime quantizedFreq currentTime];
                  envelope :=
                    [setValueAtTime 0 currentTime;
                     linearRampToValueAtTime 0.8 (currentTime + 0.01);
                     exponentialRampToValueAtTime 0.001 (currentTime + 1.5)];
                  direct := true; wet := true;
                  startTime := currentTime; stopTime := currentTime + 2 |}] |}
  else None.
Proof.
  unfold ready, playPluck.
  destruct (ctx s), (masterGain s), (reverbNode s); try discriminate.
  intros _. reflexivity.
Qed.

(** C6.  On a ready service [playPluck] maps the position linearly onto
    a frequency, [200 + x * 600], divides it by 50, replaces the quotient
    by its nearest integer ([Math.round], a tie going up) and multiplies by
    50, all in doubles; it starts one voice at the result, or raises when
    the result is not finite.  A quotient with a fractional part is within
    one half of the integer that replaces it, and a quotient without one
    is kept.  When the quotient is computed between 4 and 16, that is the
    frequency between 200 and 800, the voice plays at exactly [50 * k] for
    an integer [k] between 4 and 16 within one half of the quotient.
    Position 0 plays at 200 and position 1 at 800. *)
Theorem playPluck_frequency (currentTime x : float) (s : Service) :
  ready s = true ->
  let freq := 200 + x * 600 in
  let quantizedFreq := Math_round (freq / 50) * 50 in
  (if isFinite quantizedFreq then
     exists v : Voice,
       playPluck currentTime x s
       = Some {| ctx := ctx s; reverbNode := reverbNode s; masterGain := masterGain s;
                 voices := voices s ++ [v] |} /\
       frequency v = [setValueAtTime quantizedFreq currentTime]
   else playPluck currentTime x s = None)
  /\ (forall sg m p, Prim2SF (freq / 50) = S754_finite sg m (Z.neg p) ->
        exists (k : Z) (q : Q),
          quantizedFreq = ofInteger sg k * 50 /\
          valueOf (freq / 50) = Some q /\
          (inject_Z k - (1 # 2) <= q)%Q /\ (q < inject_Z k + (1 # 2))%Q)
  /\ ((forall sg m p, Prim2SF (freq / 50) <> S754_finite sg m (Z.neg p)) ->
        quantizedFreq = freq / 50 * 50)
  /\ ((4 <=? freq / 50) = true -> (freq / 50 <=? 16) = true ->
        exists (k : Z) (q q' : Q),
          (4 <= k <= 16)%Z /\
          valueOf quantizedFreq = Some q' /\ (q' == inject_Z (50 * k))%Q /\
          valueOf (freq / 50) = Some q /\
          (inject_Z k - (1 # 2) <= q)%Q /\ (q < inject_Z k + (1 # 2))%Q)
  /\ (exists v : Voice,
        playPluck currentTime 0 s
        = Some {| ctx := ctx s; reverbNode := reverbNode s; masterGain := masterGain s;
                  voices := voices s ++ [v] |} /\
        frequency v = [setValueAtTime 200 currentTime])
  /\ (exists v : Voice,
        playPluck currentTime 1 s
        = Some {| ctx := ctx s; reverbNode := reverbNode s; masterGain := masterGain s;
                  voices := voices s ++ [v] |} /\
        frequency v = [setValueAtTime 800 currentTime]).
Proof.
  intros Hr freq quantizedFreq.
  split; [| split; [| split; [| split; [| split]]]].
  - rewrite (playPluck_voice64 currentTime x s Hr). cbv zeta. fold freq. fold quantizedFreq.
    destruct (isFinite quantizedFreq); [| reflexivity].
    eexists. split; reflexivity.
  - intros sg m p Hv.
    destruct (nearestInteger_near _ sg m p Hv) as (q & Hq & Hlo & Hhi).
    exists (nearestInteger sg m p), q.
    split; [| split; [exact Hq | split; assumption]].
    unfold quantizedFreq. rewrite (Math_round_fraction _ sg m p Hv). reflexivity.
  - intros Hv. unfold quantizedFreq. rewrite (Math_round_integral _ Hv). reflexivity.
  - intros Hlo Hhi.
    destruct (quotient_range _ Hlo Hhi) as (m & p & Hv & Hk).
    destruct (nearestInteger_near _ false m p Hv) as (q & Hq & Hqlo & Hqhi).
    destruct (ofInteger_grid _ Hk) as (q' & Hq' & Hval).
    exists (nearestInteger false m p), q, q'.
    split; [exact Hk |].
    split; [unfold quantizedFreq; rewrite (Math_round_fraction _ false m p Hv); exact Hq' |].
    split; [exact Hval |]. split; [exact Hq |]. split; assumption.
  - rewrite (playPluck_voice64 currentTime 0 s Hr).
    change (Math_round ((200 + 0 * 600) / 50) * 50) with 200.
    cbv zeta. change (isFinite 200) with true. cbv iota.
    eexists. split; reflexivity.
  - rewrite (playPluck_voice64 currentTime 1 s Hr).
    change (Math_round ((200 + 1 * 600) / 50) * 50) with 800.
    cbv zeta. change (isFinite 800) with true. cbv iota.
    eexists. split; reflexivity.
Qed.

(** The position 0.041666666666666664: the frequency is computed as 225,
    the quotient as 4.5, and the voice plays at 250. *)
Lemma playPluck_frequency_witness :
  let s := {| ctx := Some (AudioService.mkContext AudioService.suspended 48000);
              reverbNode := Some (AudioService.mkConvolver None false);
              masterGain := Some (AudioService.mkGain (4 # 10) true);
              voices := [] |} in
  ready s = true /\
  exists v : Voice,
    playPluck 3 0.041666666666666664 s
    = Some {| ctx := ctx s; reverbNode := reverbNode s; masterGain := masterGain s;
              voices := voices s ++ [v] |} /\
    frequency v = [setValueAtTime 250 3].
Proof.
  intros s. split; [reflexivity |].
  exact (proj1 (playPluck_frequency 3 0.041666666666666664 s eq_refl)).
Defined.

End FrequencyClaim.

(** ** The crossing detector *)

Section Collisions.
Local Open Scope Q_scope.
Import StarryCanvas.

Lemma pluckerKey_inj (i j : nat) : pluckerKey i = pluckerKey j -> i = j.
Proof.
  unfold pluckerKey. intros H.
  apply (inj (String.app "plucker-")) in H.
  apply (inj pretty) in H. exact H.
Qed.

Lemma pluckerKey_ne (i j : nat) : i <> j -> pluckerKey i <> pluckerKey j.
Proof. intros Hne Heq. apply Hne, pluckerKey_inj, Heq. Qed.

Section ForEach.
Variables (f : Frame) (width : Q) (leftIndex rightIndex : Point.t).

Lemma pluckerCallback_eq (plucker : Point.t) (i : nat) (s : State) (log : Log) :
  pluckerCallback f width leftIndex rightIndex plucker i (s, log) =
  ({| ripplesRef :=
        ripplesRef s ++
        List.map (spawnedBy f)
          (crossingLog width leftIndex rightIndex plucker i (prevHandPosRef s));
      prevHandPosRef := <[pluckerKey i := plucker]> (prevHandPosRef s) |},
   log ++ crossingLog width leftIndex rightIndex plucker i (prevHandPosRef s)).
Proof.
  unfold pluckerCallback, crossingLog.
  destruct (prevHandPosRef s !! pluckerKey i) as [prev |].
  - destruct (MathUtils.getLineIntersection prev plucker leftIndex rightIndex);
      simpl; rewrite ?app_nil_r; reflexivity.
  - simpl. rewrite !app_nil_r. reflexivity.
Qed.

Lemma forEachPlucker_eq (pluckers : list Point.t) (i : nat) (s : State) (log : Log) :
  forEachPlucker f width leftIndex rightIndex i pluckers (s, log) =
  ({| ripplesRef :=
        ripplesRef s ++
        List.map (spawnedBy f)
          (collisionLog width leftIndex rightIndex i pluckers (prevHandPosRef s));
      prevHandPosRef := updatedHistory i pluckers (prevHandPosRef s) |},
   log ++ collisionLog width leftIndex rightIndex i pluckers (prevHandPosRef s)).
Proof.
  revert i s log. induction pluckers as [| p rest IH]; intros i s log;
    cbn [forEachPlucker collisionLog updatedHistory].
  - simpl. rewrite !app_nil_r. destruct s; reflexivity.
  - rewrite pluckerCallback_eq, IH. cbn [ripplesRef prevHandPosRef].
    rewrite List.map_app, !app_assoc. reflexivity.
Qed.

Lemma crossingLog_slot (plucker : Point.t) (i : nat) (m : gmap string Point.t) :
  Forall (fun e => fst e = i) (crossingLog width leftIndex rightIndex plucker i m).
Proof.
  unfold crossingLog. destruct (m !! pluckerKey i) as [prev |]; [| constructor].
  destruct (MathUtils.getLineIntersection prev plucker leftIndex rightIndex);
    repeat constructor.
Qed.

Lemma collisionLog_slots (pluckers : list Point.t) (i : nat) (m : gmap string Point.t) :
  Forall (fun e => (i <= fst e)%nat)
    (collisionLog width leftIndex rightIndex i pluckers m).
Proof.
  revert i m. induction pluckers as [| p rest IH]; intros i m; simpl; [constructor |].
  apply Forall_app. split.
  - eapply Forall_impl; [apply crossingLog_slot |]. simpl. intros e ->. lia.
  - eapply Forall_impl; [apply IH |]. simpl. intros e He. lia.
Qed.

Lemma filter_slot_none (j : nat) (log : Log) :
  Forall (fun e => fst e <> j) log ->
  List.filter (fun e => (fst e =? j)%nat) log = [].
Proof.
  induction 1 as [| e log He _ IH]; simpl; [reflexivity |].
  destruct (Nat.eqb_spec (fst e) j); [contradiction | exact IH].
Qed.

Lemma filter_slot_all (j : nat) (log : Log) :
  Forall (fun e => fst e = j) log ->
  List.filter (fun e => (fst e =? j)%nat) log = log.
Proof.
  induction 1 as [| e log He _ IH]; simpl; [reflexivity |].
  destruct (Nat.eqb_spec (fst e) j); [rewrite IH; reflexivity | contradiction].
Qed.

(** The entries that plucker [i + k] contributes to the log depend only
    on its own entry in the history the frame started with. *)
Lemma collisionLog_filter (pluckers : list Point.t) (i k : nat)
    (m : gmap string Point.t) (p : Point.t) :
  pluckers !! k = Some p ->
  List.filter (fun e => (fst e =? i + k)%nat)
    (collisionLog width leftIndex rightIndex i pluckers m)
  = crossingLog width leftIndex rightIndex p (i + k) m.
Proof.
  revert i k m. induction pluckers as [| q rest IH]; intros i k m Hk; [discriminate |].
  simpl. rewrite List.filter_app. destruct k as [| k]; simpl in Hk.
  - injection Hk as ->. rewrite Nat.add_0_r.
    rewrite filter_slot_all by apply crossingLog_slot.
    rewrite filter_slot_none; [apply app_nil_r |].
    eapply Forall_impl; [apply collisionLog_slots |]. simpl. intros e He. lia.
  - rewrite filter_slot_none.
    + simpl. replace (i + S k)%nat with (S i + k)%nat by lia.
      rewrite (IH (S i) k _ Hk). unfold crossingLog.
      rewrite lookup_insert_ne by (apply pluckerKey_ne; lia). reflexivity.
    + eapply Forall_impl; [apply crossingLog_slot |]. simpl. intros e ->. lia.
Qed.

(** Without history for the pluckers from [i] on, nothing is logged. *)
Lemma collisionLog_no_history (pluckers : list Point.t) (i : nat)
    (m : gmap string Point.t) :
  (forall k, (i <= k)%nat -> m !! pluckerKey k = None) ->
  collisionLog width leftIndex rightIndex i pluckers m = [].
Proof.
  revert i m. induction pluckers as [| p rest IH]; intros i m Hm; simpl; [reflexivity |].
  unfold crossingLog at 1. rewrite (Hm i) by lia. simpl.
  apply IH. intros k Hk.
  rewrite lookup_insert_ne by (apply pluckerKey_ne; lia). apply Hm. lia.
Qed.

End ForEach.

Lemma updatedHistory_other (pluckers : list Point.t) (i : nat)
    (m : gmap string Point.t) (key : string) :
  (forall k, (i <= k < i + List.length pluckers)%nat -> key <> pluckerKey k) ->
  updatedHistory i pluckers m !! key = m !! key.
Proof.
  revert i m. induction pluckers as [| p rest IH]; intros i m Hk; simpl; [reflexivity |].
  rewrite IH.
  - apply lookup_insert_ne. intros Heq. apply (Hk i); [simpl; lia | congruence].
  - intros k Hr. apply Hk. simpl. lia.
Qed.

Lemma updatedHistory_slot (pluckers : list Point.t) (i k : nat)
    (m : gmap string Point.t) (p : Point.t) :
  pluckers !! k = Some p ->
  updatedHistory i pluckers m !! pluckerKey (i + k) = Some p.
Proof.
  revert i k m. induction pluckers as [| q rest IH]; intros i k m Hk; [discriminate |].
  simpl. destruct k as [| k]; simpl in Hk.
  - injection Hk as ->. rewrite Nat.add_0_r.
    rewrite updatedHistory_other; [apply lookup_insert_eq |].
    intros j Hj. apply pluckerKey_ne. lia.
  - replace (i + S k)%nat with (S i + k)%nat by lia. apply IH, Hk.
Qed.

End Collisions.

(** ** The landmark extractor and the callback *)

Section Callback.
Local Open Scope Q_scope.
Import StarryCanvas.

Lemma scanHand_total (w h : Q) (acc : Hands) (landmarks : list HandLandmark.t) :
  (12 <? List.length landmarks)%nat = true ->
  exists acc', scanHand w h acc landmarks = Some acc'.
Proof.
  intros Hlen. apply Nat.ltb_lt in Hlen. unfold scanHand.
  destruct (lookup_lt_is_Some_2 landmarks 8) as [l8 ->]; [lia |].
  destruct (lookup_lt_is_Some_2 landmarks 12) as [l12 ->]; [lia |].
  eexists. reflexivity.
Qed.

Lemma scanHand_pluckers (w h : Q) (acc acc' : Hands) (landmarks : list HandLandmark.t) :
  scanHand w h acc landmarks = Some acc' ->
  List.length (activePluckers acc') = S (List.length (activePluckers acc)).
Proof.
  unfold scanHand. destruct (landmarks !! 8%nat), (landmarks !! 12%nat); try discriminate.
  intros [= <-].
  destruct (leftIndex acc); [destruct (rightIndex acc) |]; simpl;
    rewrite length_app; simpl; lia.
Qed.

(** The first hand sets [leftIndex], the second [rightIndex]; an anchor
    that is set is never replaced. *)
Lemma scanHand_anchors (w h : Q) (acc acc' : Hands) (landmarks : list HandLandmark.t) :
  scanHand w h acc landmarks = Some acc' ->
  match leftIndex acc, rightIndex acc with
  | None, r => leftIndex acc' <> None /\ rightIndex acc' = r
  | Some l, None => leftIndex acc' = Some l /\ rightIndex acc' <> None
  | Some l, Some r => leftIndex acc' = Some l /\ rightIndex acc' = Some r
  end.
Proof.
  unfold scanHand. destruct (landmarks !! 8%nat), (landmarks !! 12%nat); try discriminate.
  intros [= <-].
  destruct (leftIndex acc) eqn:Hl; [destruct (rightIndex acc) eqn:Hr |]; simpl;
    rewrite ?Hl, ?Hr; split; congruence.
Qed.

Lemma scanHands_total (w h : Q) (hands : list (list HandLandmark.t)) (acc : Hands) :
  forallb (fun landmarks => (12 <? List.length landmarks)%nat) hands = true ->
  exists res, scanHands w h hands acc = Some res.
Proof.
  revert acc. induction hands as [| lm rest IH]; intros acc Hall; simpl.
  - eexists. reflexivity.
  - simpl in Hall. apply andb_true_iff in Hall as [Hlm Hrest].
    destruct (scanHand_total w h acc lm Hlm) as [acc' ->]. apply IH, Hrest.
Qed.

Lemma scanHands_pluckers (w h : Q) (hands : list (list HandLandmark.t)) (acc res : Hands) :
  scanHands w h hands acc = Some res ->
  List.length (activePluckers res)
  = (List.length (activePluckers acc) + List.length hands)%nat.
Proof.
  revert acc. induction hands as [| lm rest IH]; intros acc; simpl.
  - intros [= <-]. lia.
  - destruct (scanHand w h acc lm) as [acc' |] eqn:Hstep; [| discriminate].
    intros Hrest. rewrite (IH _ Hrest), (scanHand_pluckers _ _ _ _ _ Hstep). lia.
Qed.

Lemma scanHands_anchors_kept (w h : Q) (hands : list (list HandLandmark.t))
    (acc res : Hands) (l r : Point.t) :
  leftIndex acc = Some l -> rightIndex acc = Some r ->
  scanHands w h hands acc = Some res ->
  leftIndex res = Some l /\ rightIndex res = Some r.
Proof.
  revert acc. induction hands as [| lm rest IH]; intros acc Hl Hr; simpl.
  - intros [= <-]. split; assumption.
  - destruct (scanHand w h acc lm) as [acc' |] eqn:Hstep; [| discriminate].
    apply scanHand_anchors in Hstep. rewrite Hl, Hr in Hstep.
    destruct Hstep as [Hl' Hr']. apply IH; assumption.
Qed.

(** With fewer than two hands there is no right anchor; with two or more
    there are both. *)
Lemma findHands_anchors (f : Frame) (w h : Q) (res : Hands) :
  findHands w h (results f) = Some res ->
  List.length (activePluckers res) = List.length (detectedHands f) /\
  ((List.length (detectedHands f) < 2)%nat -> rightIndex res = None) /\
  ((2 <= List.length (detectedHands f))%nat ->
     leftIndex res <> None /\ rightIndex res <> None).
Proof.
  unfold findHands, detectedHands.
  destruct (HandResults.multiHandLandmarks (results f)) as [hands |].
  2: { intros [= <-]. simpl. repeat split; try reflexivity; lia. }
  intros Hscan. split; [apply (scanHands_pluckers _ _ _ _ _ Hscan) |].
  destruct hands as [| h1 [| h2 rest]]; simpl in *.
  - injection Hscan as <-. split; [reflexivity | lia].
  - destruct (scanHand w h noHands h1) as [acc1 |] eqn:H1; [| discriminate].
    injection Hscan as <-. apply scanHand_anchors in H1. simpl in H1.
    split; [intros _; apply H1 | lia].
  - destruct (scanHand w h noHands h1) as [acc1 |] eqn:H1; [| discriminate].
    destruct (scanHand w h acc1 h2) as [acc2 |] eqn:H2; [| discriminate].
    apply scanHand_anchors in H1. simpl in H1. destruct H1 as [Hl1 Hr1].
    apply scanHand_anchors in H2. rewrite Hr1 in H2.
    destruct (leftIndex acc1) as [l |] eqn:Hl; [| contradiction].
    destruct H2 as [Hl2 Hr2].
    destruct (rightIndex acc2) as [r |] eqn:Hr; [| contradiction].
    destruct (scanHands_anchors_kept _ _ _ _ _ _ _ Hl2 Hr Hscan) as [-> ->].
    split; [lia | intros _; split; discriminate].
Qed.

Lemma findHands_total (f : Frame) (w h : Q) :
  fixedLayout f = true -> exists res, findHands w h (results f) = Some res.
Proof.
  unfold fixedLayout, detectedHands, findHands.
  destruct (HandResults.multiHandLandmarks (results f)) as [hands |].
  - apply scanHands_total.
  - intros _. eexists. reflexivity.
Qed.

Lemma surface_inv (f : Frame) (canvas : Canvas) :
  surface f = Some canvas ->
  canvasRef f = Some canvas /\ context2d canvas && backgroundRef f = true.
Proof.
  unfold surface. destruct (canvasRef f) as [c |]; [| discriminate].
  destruct (context2d c && backgroundRef f) eqn:Hb; [| discriminate].
  intros [= <-]. split; [reflexivity | exact Hb].
Qed.

(** A frame that passes the early return and finds both anchors. *)
Lemma upToCollisions_string (f : Frame) (s : State) (canvas : Canvas) (h : Hands)
    (a b : Point.t) :
  surface f = Some canvas ->
  findHands (width canvas) (height canvas) (results f) = Some h ->
  leftIndex h = Some a -> rightIndex h = Some b ->
  upToCollisions f s =
  Continues
    {| ripplesRef :=
         ripplesRef s ++
         List.map (spawnedBy f)
           (collisionLog (width canvas) a b 0 (activePluckers h) (prevHandPosRef s));
       prevHandPosRef := updatedHistory 0 (activePluckers h) (prevHandPosRef s) |}
    (collisionLog (width canvas) a b 0 (activePluckers h) (prevHandPosRef s)).
Proof.
  intros Hs Hf Ha Hb. destruct (surface_inv f canvas Hs) as [Hc Hok].
  unfold upToCollisions, checkCollisions. rewrite Hc, Hok, Hf, Ha, Hb.
  rewrite forEachPlucker_eq. reflexivity.
Qed.

(** A frame that passes the early return and misses an anchor. *)
Lemma upToCollisions_reset (f : Frame) (s : State) (canvas : Canvas) (h : Hands) :
  surface f = Some canvas ->
  findHands (width canvas) (height canvas) (results f) = Some h ->
  leftIndex h = None \/ rightIndex h = None ->
  upToCollisions f s =
  Continues {| ripplesRef := ripplesRef s; prevHandPosRef := ∅ |} [].
Proof.
  intros Hs Hf Hn. destruct (surface_inv f canvas Hs) as [Hc Hok].
  unfold upToCollisions, checkCollisions. rewrite Hc, Hok, Hf.
  destruct Hn as [-> | Hr]; [reflexivity |]. rewrite Hr.
  destruct (leftIndex h); reflexivity.
Qed.

(** Whatever the frame, the log is empty when the history is. *)
Lemma onResults_no_history (f : Frame) (s s' : State) (log : Log) :
  prevHandPosRef s = ∅ -> onResults f s = Some (s', log) -> log = [].
Proof.
  intros Hempty. unfold onResults, upToCollisions.
  destruct (canvasRef f) as [canvas |]; [| intros [= _ <-]; reflexivity].
  destruct (context2d canvas && backgroundRef f); [| intros [= _ <-]; reflexivity].
  destruct (findHands (width canvas) (height canvas) (results f)) as [h |];
    [| discriminate].
  unfold checkCollisions.
  destruct (leftIndex h) as [a |]; [destruct (rightIndex h) as [b |] |];
    try (intros [= _ <-]; reflexivity).
  rewrite forEachPlucker_eq. intros [= _ <-].
  rewrite Hempty. simpl. apply collisionLog_no_history.
  intros k _. apply lookup_empty.
Qed.

(** The events of plucker [i] in a frame that has both anchors: one event
    when there is a previous position and the motion crosses the string,
    none otherwise. *)
Lemma eventsOf_string (f : Frame) (s : State) (canvas : Canvas) (h : Hands)
    (a b cur : Point.t) (i : nat) :
  surface f = Some canvas ->
  findHands (width canvas) (height canvas) (results f) = Some h ->
  leftIndex h = Some a -> rightIndex h = Some b ->
  activePluckers h !! i = Some cur ->
  eventsOf i (frameLog f s) =
  List.map snd (crossingLog (width canvas) a b cur i (prevHandPosRef s)).
Proof.
  intros Hs Hf Ha Hb Hcur. unfold frameLog, onResults.
  rewrite (upToCollisions_string f s canvas h a b Hs Hf Ha Hb).
  unfold eventsOf.
  rewrite (collisionLog_filter (width canvas) a b (activePluckers h) 0 i _ cur Hcur).
  reflexivity.
Qed.

End Callback.

Section CrossingClaims.
Local Open Scope Q_scope.
Import StarryCanvas.



(** The plucker that stays above the string, from (50,-10) to (50,-1),
    fires nothing. *)
Example stays_above_no_pluck :
  frameLog Scenario.stillAbove
    (fst (default (initialState, []) (onResults Scenario.above initialState))) = [].
Proof. vm_compute. reflexivity. Qed.

(** C3.  A frame with fewer than two hands empties the history and logs
    no pluck event; the frame after it logs none either, whatever it
    contains. *)
Theorem hands_lost_clears_history (f f2 : Frame) (s : State) (canvas : Canvas) :
  surface f = Some canvas ->
  fixedLayout f = true ->
  (List.length (detectedHands f) < 2)%nat ->
  exists s',
    onResults f s = Some (s', []) /\
    prevHandPosRef s' = ∅ /\
    forall s2 log2, onResults f2 s' = Some (s2, log2) -> log2 = [].
Proof.
  intros Hs Hfixed Hfew.
  destruct (findHands_total f (width canvas) (height canvas) Hfixed) as [h Hf].
  destruct (findHands_anchors f _ _ h Hf) as (_ & Hnone & _).
  specialize (Hnone Hfew).
  unfold onResults. rewrite (upToCollisions_reset f s canvas h Hs Hf (or_intror Hnone)).
  eexists. split; [reflexivity |]. split; [reflexivity |].
  intros s2 log2. apply onResults_no_history. reflexivity.
Qed.

(** Two hands, then one, then two again with the plucker on the other
    side of the string: nothing fires. *)
Lemma hands_lost_clears_history_witness :
  exists s1 s2 s3 : State,
    onResults Scenario.above initialState = Some (s1, []) /\
    onResults Scenario.oneHand s1 = Some (s2, []) /\
    prevHandPosRef s2 = ∅ /\
    onResults Scenario.below s2 = Some (s3, []).
Proof.
  pose (s1 := fst (default (initialState, []) (onResults Scenario.above initialState))).
  exists s1.
  destruct (hands_lost_clears_history Scenario.oneHand Scenario.below s1
              {| width := 100; height := 100; context2d := true |})
    as (s2 & Hrun & Hempty & Hnext); [reflexivity | reflexivity | simpl; lia |].
  exists s2.
  destruct (onResults Scenario.below s2) as [[s3 log3] |] eqn:H3.
  - exists s3. split; [vm_compute; reflexivity |].
    split; [exact Hrun |]. split; [exact Hempty |].
    rewrite (Hnext s3 log3 eq_refl). reflexivity.
  - exfalso. revert H3. unfold onResults.
    rewrite (upToCollisions_string Scenario.below s2
               {| width := 100; height := 100; context2d := true |}
               _ _ _ eq_refl eq_refl eq_refl eq_refl).
    discriminate.
Defined.

End CrossingClaims.

(** ** The ripple simulator *)

Section Ripples.
Local Open Scope Q_scope.
Import StarryCanvas.

Variable i : Q.

Lemma alive_app (l1 l2 : list Ripple.t) :
  alive i (l1 ++ l2) = alive i l1 || alive i l2.
Proof. apply existsb_app. Qed.

Lemma cohort_app (a : Q) (l1 l2 : list Ripple.t) :
  cohort i a l1 -> cohort i a l2 -> cohort i a (l1 ++ l2).
Proof.
  intros H1 H2 r Hin. apply in_app_or in Hin as [Hin | Hin]; [apply H1 | apply H2]; exact Hin.
Qed.

Lemma cohort_absent (a : Q) (rs : list Ripple.t) :
  alive i rs = false -> cohort i a rs.
Proof.
  intros Hdead r Hin Hid. exfalso.
  assert (Halive : alive i rs = true).
  { apply existsb_exists. exists r. split; [exact Hin | apply Qeq_bool_iff, Hid]. }
  congruence.
Qed.

Lemma Qlt_bool_proper (a a' b b' : Q) :
  a == a' -> b == b' -> Qlt_bool a b = Qlt_bool a' b'.
Proof.
  intros Ha Hb. apply eq_true_iff_eq. rewrite !Qlt_bool_iff, Ha, Hb. reflexivity.
Qed.

Lemma advanceRipples_cons (r : Ripple.t) (rs : list Ripple.t) :
  advanceRipples (r :: rs) =
  if Qlt_bool (Ripple.age r + 1) (Ripple.maxAge r)
  then ageRipple r :: advanceRipples rs
  else advanceRipples rs.
Proof. reflexivity. Qed.

Lemma advanceRipples_alive (a : Q) (rs : list Ripple.t) :
  cohort i a rs ->
  alive i (advanceRipples rs) = alive i rs && Qlt_bool (a + 1) 60.
Proof.
  induction rs as [| r rs IH]; intros Hc; [reflexivity |].
  assert (Hrs : cohort i a rs) by (intros r' Hin; apply Hc; right; exact Hin).
  pose proof (IH Hrs) as IHrs.
  rewrite advanceRipples_cons.
  change (alive i (r :: rs)) with (Qeq_bool (Ripple.id r) i || alive i rs).
  destruct (Qeq_bool (Ripple.id r) i) eqn:Hid.
  - apply Qeq_bool_iff in Hid. destruct (Hc r (or_introl eq_refl) Hid) as [Hage Hmax].
    rewrite (Qlt_bool_proper (Ripple.age r + 1) (a + 1) (Ripple.maxAge r) 60)
      by (rewrite ?Hage, ?Hmax; reflexivity).
    destruct (Qlt_bool (a + 1) 60) eqn:Hlt.
    + change (alive i (ageRipple r :: advanceRipples rs))
        with (Qeq_bool (Ripple.id r) i || alive i (advanceRipples rs)).
      apply Qeq_bool_iff in Hid. rewrite Hid. reflexivity.
    + rewrite IHrs, !andb_false_r. reflexivity.
  - cbn [orb]. destruct (Qlt_bool (Ripple.age r + 1) (Ripple.maxAge r)); [| exact IHrs].
    change (alive i (ageRipple r :: advanceRipples rs))
      with (Qeq_bool (Ripple.id r) i || alive i (advanceRipples rs)).
    rewrite Hid. exact IHrs.
Qed.

Lemma advanceRipples_cohort (a : Q) (rs : list Ripple.t) :
  cohort i a rs -> cohort i (a + 1) (advanceRipples rs).
Proof.
  intros Hc r Hin Hid. unfold advanceRipples in Hin.
  apply filter_In in Hin as [Hin _]. apply in_map_iff in Hin as (r0 & <- & Hin0).
  destruct (Hc r0 Hin0 Hid) as [Hage Hmax]. simpl. split; [rewrite Hage; reflexivity | exact Hmax].
Qed.

(** The ripples a frame spawns are new, with the lifetime 60. *)
Lemma spawned_cohort (f : Frame) (log : Log) : cohort i 0 (List.map (spawnedBy f) log).
Proof.
  intros r Hin _. apply in_map_iff in Hin as (e & <- & _). simpl. split; reflexivity.
Qed.

Lemma spawned_other (f : Frame) (log : Log) :
  (forall slot, ~ rippleId f slot == i) -> alive i (List.map (spawnedBy f) log) = false.
Proof.
  intros Hno. apply not_true_is_false. intros Halive.
  apply existsb_exists in Halive as (r & Hin & Hid).
  apply in_map_iff in Hin as (e & <- & _). apply Qeq_bool_iff in Hid.
  exact (Hno _ Hid).
Qed.

Lemma age_limit (k : nat) :
  Qlt_bool (inject_Z (Z.of_nat k) + 1) 60 = (S k <? 60)%nat.
Proof.
  apply eq_true_iff_eq. rewrite Qlt_bool_iff, Nat.ltb_lt.
  change 60 with (inject_Z 60). change 1 with (inject_Z 1).
  rewrite <- inject_Z_plus, <- Zlt_Qlt. lia.
Qed.

(** The drawing code is reached for the ripples that the cleanup keeps,
    and for no other: a ripple whose [life] is not positive is not drawn. *)
Lemma drawn_iff_kept (r : Ripple.t) :
  0 < Ripple.maxAge r ->
  negb (Qle_bool (life r) 0) = Qlt_bool (Ripple.age r) (Ripple.maxAge r).
Proof.
  intros Hmax. apply eq_true_iff_eq.
  rewrite negb_true_iff, <- not_true_iff_false, Qle_bool_iff, Qlt_bool_iff.
  unfold life.
  assert (Hage : Ripple.age r == (Ripple.age r / Ripple.maxAge r) * Ripple.maxAge r)
    by (field; lra).
  set (q := Ripple.age r / Ripple.maxAge r) in *. clearbody q.
  split; intros H.
  - assert (q < 1) by lra. nra.
  - intros Hle. assert (1 <= q) by lra. nra.
Qed.

(** X22.  In one frame, the ripples that are drawn after their [age++]
    (those whose [life] is positive) are exactly the ripples that the
    cleanup keeps, when every lifetime is positive: a ripple is never drawn
    in the frame that removes it. *)
Lemma drawn_are_kept (rs : list Ripple.t) :
  Forall (fun r => 0 < Ripple.maxAge r) rs ->
  drawnRipples (List.map ageRipple rs) = advanceRipples rs.
Proof.
  intros Hall. unfold drawnRipples, advanceRipples. apply filter_ext_in.
  intros r Hin. apply in_map_iff in Hin as (r0 & <- & Hin0).
  apply drawn_iff_kept. simpl. rewrite Forall_forall in Hall.
  apply Hall, list_elem_of_In, Hin0.
Qed.

End Ripples.

Section RippleRuns.
Local Open Scope Q_scope.
Import StarryCanvas.

(** A frame that runs its update reaches the ripple pass with the old
    live set followed by the ripples of its log. *)
Lemma upToCollisions_updates (f : Frame) (s : State) :
  updates f = true ->
  exists s1 log,
    upToCollisions f s = Continues s1 log /\
    ripplesRef s1 = ripplesRef s ++ List.map (spawnedBy f) log.
Proof.
  unfold updates. destruct (surface f) as [canvas |] eqn:Hs; [| discriminate].
  intros Hfixed.
  destruct (findHands_total f (width canvas) (height canvas) Hfixed) as [h Hf].
  destruct (leftIndex h) as [a |] eqn:Ha; [destruct (rightIndex h) as [b |] eqn:Hb |].
  - rewrite (upToCollisions_string f s canvas h a b Hs Hf Ha Hb).
    eexists _, _. split; reflexivity.
  - rewrite (upToCollisions_reset f s canvas h Hs Hf (or_intror Hb)).
    eexists _, _. split; [reflexivity |]. simpl. symmetry. apply app_nil_r.
  - rewrite (upToCollisions_reset f s canvas h Hs Hf (or_introl Ha)).
    eexists _, _. split; [reflexivity |]. simpl. symmetry. apply app_nil_r.
Qed.

(** The callback returns normally on every frame that runs its update. *)
Lemma onResults_total (f : Frame) (s : State) :
  updates f = true -> exists s' log, onResults f s = Some (s', log).
Proof.
  intros Hup. destruct (upToCollisions_updates f s Hup) as (s1 & log & Hmid & _).
  unfold onResults. rewrite Hmid. eexists _, _. reflexivity.
Qed.

Lemma frameLog_continues (f : Frame) (s s1 : State) (log : Log) :
  upToCollisions f s = Continues s1 log -> frameLog f s = log.
Proof. intros H. unfold frameLog, onResults. rewrite H. reflexivity. Qed.

(** The ripple [i] through the frames that follow the [k] frames it has
    lived so far. *)
Lemma lifetime_later (i : Q) (fs : list Frame) :
  forall (s : State) (k : nat),
    cohort i (inject_Z (Z.of_nat k)) (ripplesRef s) ->
    alive i (ripplesRef s) = (k <? 60)%nat ->
    (forall f, In f fs -> updates f = true /\ forall slot, ~ rippleId f slot == i) ->
    forall j, (1 <= j <= List.length fs)%nat ->
      (exists live, liveDuring fs s j = Some live /\ alive i live = (k + j <=? 60)%nat) /\
      (exists live, liveAfter fs s j = Some live /\ alive i live = (k + j <? 60)%nat).
Proof.
  induction fs as [| f rest IH]; intros s k Hc Halive Hfs j Hj; [simpl in Hj; lia |].
  destruct (Hfs f (or_introl eq_refl)) as [Hup Hno].
  destruct (upToCollisions_updates f s Hup) as (s1 & log & Hmid & Hrip).
  assert (Hmid_alive : alive i (ripplesRef s1) = (k <? 60)%nat).
  { rewrite Hrip, alive_app, (spawned_other i f log Hno), orb_false_r. exact Halive. }
  assert (Hmid_c : cohort i (inject_Z (Z.of_nat k)) (ripplesRef s1)).
  { rewrite Hrip. apply cohort_app; [exact Hc |].
    apply cohort_absent, spawned_other, Hno. }
  assert (Hrun : onResults f s =
                 Some ({| ripplesRef := advanceRipples (ripplesRef s1);
                          prevHandPosRef := prevHandPosRef s1 |}, log)).
  { unfold onResults. rewrite Hmid. reflexivity. }
  set (s' := {| ripplesRef := advanceRipples (ripplesRef s1);
                prevHandPosRef := prevHandPosRef s1 |}) in *.
  assert (Hafter_alive : alive i (ripplesRef s') = (S k <? 60)%nat).
  { simpl. rewrite (advanceRipples_alive i _ _ Hmid_c), Hmid_alive, age_limit.
    destruct (Nat.ltb_spec k 60), (Nat.ltb_spec (S k) 60); simpl; try reflexivity; lia. }
  assert (Hafter_c : cohort i (inject_Z (Z.of_nat (S k))) (ripplesRef s')).
  { simpl ripplesRef. intros r Hin Hid.
    destruct (advanceRipples_cohort i _ _ Hmid_c r Hin Hid) as [Hage Hmax].
    split; [| exact Hmax]. rewrite Hage, Nat2Z.inj_succ. unfold Z.succ.
    rewrite inject_Z_plus. reflexivity. }
  destruct j as [| [| j]]; [lia | |].
  - split.
    + exists (ripplesRef s1). simpl. rewrite Hmid. split; [reflexivity |].
      rewrite Hmid_alive.
      destruct (Nat.ltb_spec k 60), (Nat.leb_spec (k + 1) 60); try reflexivity; lia.
    + exists (ripplesRef s'). split.
      * unfold liveAfter. simpl. rewrite Hrun. reflexivity.
      * rewrite Hafter_alive. f_equal. lia.
  - assert (Hrest : forall f', In f' rest ->
               updates f' = true /\ forall slot, ~ rippleId f' slot == i)
      by (intros f' Hin; apply Hfs; right; exact Hin).
    assert (Hj' : (1 <= S j <= List.length rest)%nat) by (simpl in Hj; lia).
    destruct (IH s' (S k) Hafter_c Hafter_alive Hrest (S j) Hj') as [Hd Ha].
    replace (k + S (S j))%nat with (S k + S j)%nat by lia.
    split.
    + destruct Hd as (live & Hlive & Hval). exists live.
      split; [| exact Hval]. simpl. rewrite Hrun. exact Hlive.
    + destruct Ha as (live & Hlive & Hval). exists live.
      split; [| exact Hval]. unfold liveAfter in *. simpl. rewrite Hrun. exact Hlive.
Qed.

End RippleRuns.

Section RippleClaims.
Local Open Scope Q_scope.
Import StarryCanvas.

Lemma cohort_eq (i a a' : Q) (rs : list Ripple.t) :
  a == a' -> cohort i a rs -> cohort i a' rs.
Proof.
  intros Ha Hc r Hin Hid. destruct (Hc r Hin Hid) as [Hage Hmax].
  split; [rewrite <- Ha; exact Hage | exact Hmax].
Qed.

(** C4, as stated, fails.  The ripple of the crossing scenario is spawned
    in frame 1 with age 0 and [maxAge] 60.  It is in the live set left by
    the advance of each of the frames 1 to 59, and in the live set left
    by no later frame: 59 frames counted from the frame of its spawn, not
    60. *)
Lemma ripple_lifetime_counterexample :
  let s1 := fst (default (initialState, []) (onResults Scenario.above initialState)) in
  let frames := Scenario.below :: replicate 62 Scenario.idle in
  let present j :=
    match liveAfter frames s1 j with
    | Some live => alive 7 live
    | None => false
    end in
  alive 7 (ripplesRef s1) = false /\
  List.map (fun r => (Ripple.id r, Ripple.age r, Ripple.maxAge r))
    (List.map (spawnedBy Scenario.below) (frameLog Scenario.below s1))
  = [(7, 0, 60)] /\
  List.map present (seq 1 63) = replicate 59 true ++ replicate 4 false /\
  List.length (List.filter present (seq 1 63)) = 59%nat.
Proof. vm_compute. repeat split; reflexivity. Qed.

(** C4, amended.  A ripple that frame 1 of a run spawns (with age 0 and
    the fixed [maxAge] 60), under an identifier [i] that no other ripple
    of the run carries, is in the live set that the ripple pass iterates
    over in frame [j] exactly when [j <= 60]: in 60 frames counted from
    the frame of its spawn, and in no later frame.  The cleanup of frame
    60 removes it, so that it is in the live set left by frame [j]
    exactly when [j < 60]: after the advance of 59 frames, and of no
    later one. *)
Theorem ripple_lifetime (f : Frame) (fs : list Frame) (s : State) (i : Q) :
  (forall f', In f' (f :: fs) -> updates f' = true) ->
  alive i (ripplesRef s) = false ->
  alive i (List.map (spawnedBy f) (frameLog f s)) = true ->
  (forall f', In f' fs -> forall slot, ~ rippleId f' slot == i) ->
  forall j, (1 <= j <= List.length (f :: fs))%nat ->
    (exists live,
        liveDuring (f :: fs) s j = Some live /\ alive i live = (j <=? 60)%nat) /\
    (exists live,
        liveAfter (f :: fs) s j = Some live /\ alive i live = (j <? 60)%nat).
Proof.
  intros Hup Hfresh Hspawn Hothers j Hj.
  destruct (upToCollisions_updates f s (Hup f (or_introl eq_refl)))
    as (s1 & log & Hmid & Hrip).
  rewrite (frameLog_continues f s s1 log Hmid) in Hspawn.
  assert (Hmid_alive : alive i (ripplesRef s1) = true).
  { rewrite Hrip, alive_app, Hspawn. apply orb_true_r. }
  assert (Hmid_c : cohort i 0 (ripplesRef s1)).
  { rewrite Hrip. apply cohort_app; [apply cohort_absent, Hfresh | apply spawned_cohort]. }
  assert (Hrun : onResults f s =
                 Some ({| ripplesRef := advanceRipples (ripplesRef s1);
                          prevHandPosRef := prevHandPosRef s1 |}, log)).
  { unfold onResults. rewrite Hmid. reflexivity. }
  set (s' := {| ripplesRef := advanceRipples (ripplesRef s1);
                prevHandPosRef := prevHandPosRef s1 |}) in *.
  assert (Hafter_alive : alive i (ripplesRef s') = true).
  { unfold s'. cbn [ripplesRef].
    rewrite (advanceRipples_alive i 0 _ Hmid_c), Hmid_alive. reflexivity. }
  assert (Hafter_c : cohort i (inject_Z (Z.of_nat 1)) (ripplesRef s')).
  { apply (cohort_eq i (0 + 1)); [reflexivity |].
    apply advanceRipples_cohort, Hmid_c. }
  destruct j as [| [| j]]; [lia | |].
  - split.
    + exists (ripplesRef s1). split; [| exact Hmid_alive].
      simpl. rewrite Hmid. reflexivity.
    + exists (ripplesRef s'). split; [| exact Hafter_alive].
      unfold liveAfter. simpl. rewrite Hrun. reflexivity.
  - assert (Hrest : forall f', In f' fs ->
               updates f' = true /\ forall slot, ~ rippleId f' slot == i).
    { intros f' Hin. split; [apply Hup; right; exact Hin | apply Hothers, Hin]. }
    assert (Hj' : (1 <= S j <= List.length fs)%nat) by (simpl in Hj; lia).
    destruct (lifetime_later i fs s' 1 Hafter_c Hafter_alive Hrest (S j) Hj')
      as [Hd Ha].
    split.
    + destruct Hd as (live & Hlive & Hval). exists live.
      split; [| exact Hval]. simpl. rewrite Hrun. exact Hlive.
    + destruct Ha as (live & Hlive & Hval). exists live.
      split; [| exact Hval]. unfold liveAfter in *. simpl. rewrite Hrun. exact Hlive.
Qed.

(** The ripple of the crossing scenario, followed by 60 idle frames: it
    is iterated over in frame 60 and gone after it, and absent from frame
    61 altogether. *)
Lemma ripple_lifetime_witness :
  let s1 := fst (default (initialState, []) (onResults Scenario.above initialState)) in
  let frames := Scenario.below :: replicate 60 Scenario.idle in
  alive 7 (ripplesRef s1) = false /\
  alive 7 (List.map (spawnedBy Scenario.below) (frameLog Scenario.below s1)) = true /\
  (exists live, liveDuring frames s1 60 = Some live /\ alive 7 live = true) /\
  (exists live, liveAfter frames s1 60 = Some live /\ alive 7 live = false) /\
  (exists live, liveDuring frames s1 61 = Some live /\ alive 7 live = false).
Proof.
  intros s1 frames.
  assert (Hup : forall f', In f' frames -> updates f' = true).
  { intros f' [<- | Hin]; [reflexivity |].
    apply list_elem_of_In, elem_of_replicate in Hin as [-> _]. reflexivity. }
  assert (Hfresh : alive 7 (ripplesRef s1) = false) by reflexivity.
  assert (Hspawn :
    alive 7 (List.map (spawnedBy Scenario.below) (frameLog Scenario.below s1)) = true)
    by (vm_compute; reflexivity).
  assert (Hothers : forall f', In f' (replicate 60 Scenario.idle) ->
                               forall slot, ~ rippleId f' slot == 7).
  { intros f' Hin slot.
    apply list_elem_of_In, elem_of_replicate in Hin as [-> _]. simpl. discriminate. }
  split; [exact Hfresh |]. split; [exact Hspawn |].
  pose proof (ripple_lifetime Scenario.below (replicate 60 Scenario.idle) s1 7
                Hup Hfresh Hspawn Hothers) as Hlife.
  destruct (Hlife 60%nat) as [Hd60 Ha60]; [simpl; lia |].
  destruct (Hlife 61%nat) as [Hd61 _]; [simpl; lia |].
  split; [exact Hd60 |]. split; [exact Ha60 | exact Hd61].
Defined.

End RippleClaims.

(** ** The history of plucker positions *)

Section History.
Local Open Scope Q_scope.
Import StarryCanvas.

Lemma detectedPluckers_eq (f : Frame) (canvas : Canvas) (h : Hands) :
  surface f = Some canvas ->
  findHands (width canvas) (height canvas) (results f) = Some h ->
  detectedPluckers f = activePluckers h.
Proof. intros Hs Hf. unfold detectedPluckers. rewrite Hs, Hf. reflexivity. Qed.

Lemma upToCollisions_returned (f : Frame) (s : State) :
  surface f = None -> upToCollisions f s = Returned.
Proof.
  unfold surface, upToCollisions. destruct (canvasRef f) as [c |]; [| reflexivity].
  destruct (context2d c && backgroundRef f); [discriminate | reflexivity].
Qed.

Lemma twoSlots_initial : twoSlots initialState.
Proof. intros key [p Hp]. simpl in Hp. rewrite lookup_empty in Hp. discriminate. Qed.

Lemma two_pluckers (ps : list Point.t) :
  List.length ps = 2%nat -> exists p0 p1, ps = [p0; p1].
Proof.
  destruct ps as [| p0 [| p1 [| p2 rest]]]; try discriminate.
  intros _. exists p0, p1. reflexivity.
Qed.

(** With two pluckers and no foreign key, the history after the frame
    holds exactly the two current positions. *)
Lemma updatedHistory_two (m : gmap string Point.t) (p0 p1 : Point.t) :
  (forall key, is_Some (m !! key) -> key = pluckerKey 0 \/ key = pluckerKey 1) ->
  updatedHistory 0 [p0; p1] m = <[pluckerKey 1 := p1]> (<[pluckerKey 0 := p0]> ∅).
Proof.
  intros Hm. simpl. apply map_eq. intros key.
  destruct (decide (key = pluckerKey 1)) as [-> | H1].
  { rewrite !lookup_insert_eq. reflexivity. }
  rewrite !(lookup_insert_ne _ (pluckerKey 1)) by congruence.
  destruct (decide (key = pluckerKey 0)) as [-> | H0].
  { rewrite !lookup_insert_eq. reflexivity. }
  rewrite !(lookup_insert_ne _ (pluckerKey 0)) by congruence.
  rewrite lookup_empty. destruct (m !! key) as [p |] eqn:Hk; [| reflexivity].
  destruct (Hm key) as [-> | ->]; [rewrite Hk; eexists; reflexivity | |]; contradiction.
Qed.

Lemma size_two (p0 p1 : Point.t) :
  size (<[pluckerKey 1 := p1]> (<[pluckerKey 0 := p0]> (∅ : gmap string Point.t))) = 2%nat.
Proof.
  rewrite map_size_insert_None.
  - rewrite map_size_insert_None; [rewrite map_size_empty; reflexivity | apply lookup_empty].
  - rewrite lookup_insert_ne by (apply pluckerKey_ne; lia). apply lookup_empty.
Qed.

(** One frame with at most two hands, from a history with no foreign key. *)
Lemma onResults_twoSlots (f : Frame) (s : State) :
  fixedLayout f = true ->
  (List.length (detectedHands f) <= 2)%nat ->
  twoSlots s ->
  exists s' log,
    onResults f s = Some (s', log) /\ twoSlots s' /\
    (updates f = true ->
       let n := List.length (detectedPluckers f) in
       n = List.length (detectedHands f) /\
       size (prevHandPosRef s') = (if (2 <=? n)%nat then n else 0%nat) /\
       ((n < 2)%nat -> prevHandPosRef s' = ∅) /\
       ((2 <= n)%nat -> forall k p,
           detectedPluckers f !! k = Some p ->
           prevHandPosRef s' !! pluckerKey k = Some p)).
Proof.
  intros Hfixed Hmax Hs.
  destruct (surface f) as [canvas |] eqn:Hsurf.
  2: { exists s, []. unfold onResults, updates.
       rewrite (upToCollisions_returned f s Hsurf), Hsurf.
       split; [reflexivity | split; [exact Hs | discriminate]]. }
  destruct (findHands_total f (width canvas) (height canvas) Hfixed) as [h Hf].
  destruct (findHands_anchors f _ _ h Hf) as (Hlen & Hfew & Hboth).
  rewrite <- (detectedPluckers_eq f canvas h Hsurf Hf) in Hlen.
  destruct (Nat.lt_ge_cases (List.length (detectedHands f)) 2) as [Hlt | Hge].
  - exists {| ripplesRef := advanceRipples (ripplesRef s); prevHandPosRef := ∅ |}, [].
    unfold onResults.
    rewrite (upToCollisions_reset f s canvas h Hsurf Hf (or_intror (Hfew Hlt))).
    split; [reflexivity |]. split.
    + intros key [p Hp]. simpl in Hp. rewrite lookup_empty in Hp. discriminate.
    + intros _. cbn zeta. rewrite Hlen. split; [reflexivity |].
      destruct (Nat.leb_spec 2 (List.length (detectedHands f))); [lia |].
      simpl. split; [apply map_size_empty |]. split; [reflexivity | lia].
  - destruct (Hboth Hge) as [Ha Hb].
    destruct (leftIndex h) as [a |] eqn:Hleft; [| contradiction].
    destruct (rightIndex h) as [b |] eqn:Hright; [| contradiction].
    assert (Htwo : List.length (detectedPluckers f) = 2%nat) by lia.
    destruct (two_pluckers _ Htwo) as (p0 & p1 & Hps).
    unfold onResults. rewrite (upToCollisions_string f s canvas h a b Hsurf Hf Hleft Hright).
    rewrite <- (detectedPluckers_eq f canvas h Hsurf Hf), Hps.
    rewrite (updatedHistory_two _ p0 p1 Hs).
    eexists _, _. split; [reflexivity |]. cbn [prevHandPosRef]. split.
    + intros key [p Hp]. cbn [prevHandPosRef] in Hp.
      destruct (decide (key = pluckerKey 1)) as [-> | H1]; [right; reflexivity |].
      rewrite lookup_insert_ne in Hp by congruence.
      destruct (decide (key = pluckerKey 0)) as [-> | H0]; [left; reflexivity |].
      rewrite lookup_insert_ne, lookup_empty in Hp by congruence. discriminate.
    + intros _. cbn zeta. split; [rewrite <- Hps; exact Hlen |].
      change (List.length [p0; p1]) with 2%nat. cbn [Nat.leb].
      split; [apply size_two |]. split; [lia |].
      intros _ k p Hk. destruct k as [| [| k]]; simpl in Hk; try discriminate;
        injection Hk as <-.
      * rewrite lookup_insert_ne by (apply pluckerKey_ne; lia). apply lookup_insert_eq.
      * apply lookup_insert_eq.
Qed.

Lemma runFrames_twoSlots (fs : list Frame) (s : State) :
  (forall f, In f fs ->
     fixedLayout f = true /\ (List.length (detectedHands f) <= 2)%nat) ->
  twoSlots s ->
  exists s', runFrames fs s = Some s' /\ twoSlots s'.
Proof.
  revert s. induction fs as [| f rest IH]; intros s Hfs Hs; simpl.
  - exists s. split; [reflexivity | exact Hs].
  - destruct (Hfs f (or_introl eq_refl)) as [Hfixed Hmax].
    destruct (onResults_twoSlots f s Hfixed Hmax Hs) as (s' & log & -> & Hs' & _).
    apply IH; [| exact Hs']. intros f' Hin. apply Hfs. right. exact Hin.
Qed.

Lemma runFrames_app (fs : list Frame) (f : Frame) (s s1 : State) :
  runFrames fs s = Some s1 ->
  runFrames (fs ++ [f]) s =
  match onResults f s1 with Some (s', _) => Some s' | None => None end.
Proof.
  revert s. induction fs as [| f0 rest IH]; intros s; simpl.
  - intros [= ->]. destruct (onResults f s1) as [[s' log] |]; reflexivity.
  - destruct (onResults f0 s) as [[s0 log0] |]; [apply IH | discriminate].
Qed.

End History.

Section HistoryClaims.
Local Open Scope Q_scope.
Import StarryCanvas.

(** C5, as stated, fails.  After a frame with one hand the history is
    empty although one plucker was detected; after three hands followed
    by two, the history still holds three keys although two pluckers were
    detected. *)
Lemma history_size_counterexample :
  (exists s' : State,
      runFrames [Scenario.oneHand] initialState = Some s' /\
      List.length (detectedPluckers Scenario.oneHand) = 1%nat /\
      size (prevHandPosRef s') = 0%nat /\
      size (prevHandPosRef s') <> List.length (detectedPluckers Scenario.oneHand))
  /\
  (exists s' : State,
      runFrames [Scenario.threeHands; Scenario.idle] initialState = Some s' /\
      List.length (detectedPluckers Scenario.idle) = 2%nat /\
      size (prevHandPosRef s') = 3%nat /\
      size (prevHandPosRef s') <> List.length (detectedPluckers Scenario.idle)).
Proof.
  split.
  - exists (default initialState (runFrames [Scenario.oneHand] initialState)).
    split; [vm_compute; reflexivity |]. split; [reflexivity |].
    split; [vm_compute; reflexivity |]. vm_compute. discriminate.
  - exists (default initialState
              (runFrames [Scenario.threeHands; Scenario.idle] initialState)).
    split; [vm_compute; reflexivity |]. split; [reflexivity |].
    split; [vm_compute; reflexivity |]. vm_compute. discriminate.
Qed.

(** C5, amended.  In a run from the initial state in which no frame has
    more than two hands, after the update of every frame: the size of the
    history is the number of pluckers detected in that frame when two
    hands were detected, each plucker slot then holding the current
    position; and the history is empty when fewer than two hands were
    detected. *)
Theorem history_size (fs : list Frame) (f : Frame) :
  (forall f', In f' (fs ++ [f]) ->
     fixedLayout f' = true /\ (List.length (detectedHands f') <= 2)%nat) ->
  updates f = true ->
  exists s' : State,
    runFrames (fs ++ [f]) initialState = Some s' /\
    let n := List.length (detectedPluckers f) in
    n = List.length (detectedHands f) /\
    size (prevHandPosRef s') = (if (2 <=? n)%nat then n else 0%nat) /\
    ((n < 2)%nat -> prevHandPosRef s' = ∅) /\
    ((2 <= n)%nat -> forall k p,
        detectedPluckers f !! k = Some p ->
        prevHandPosRef s' !! pluckerKey k = Some p).
Proof.
  intros Hall Hup.
  destruct (runFrames_twoSlots fs initialState) as (s1 & Hrun & Hs1).
  { intros f' Hin. apply Hall, in_or_app. left. exact Hin. }
  { apply twoSlots_initial. }
  destruct (Hall f) as [Hfixed Hmax]; [apply in_or_app; right; left; reflexivity |].
  destruct (onResults_twoSlots f s1 Hfixed Hmax Hs1) as (s' & log & Hstep & _ & Hsize).
  exists s'. rewrite (runFrames_app fs f initialState s1 Hrun), Hstep.
  split; [reflexivity | apply Hsize, Hup].
Qed.

(** Two hands, one hand, two hands: the sizes are 2, 0 and 2. *)
Lemma history_size_witness :
  (exists s' : State,
      runFrames ([Scenario.above; Scenario.oneHand] ++ [Scenario.below]) initialState
        = Some s' /\
      size (prevHandPosRef s') = 2%nat) /\
  (exists s' : State,
      runFrames ([Scenario.above] ++ [Scenario.oneHand]) initialState = Some s' /\
      size (prevHandPosRef s') = 0%nat).
Proof.
  split.
  - destruct (history_size [Scenario.above; Scenario.oneHand] Scenario.below)
      as (s' & Hrun & _ & Hsize & _).
    + intros f' Hin. simpl in Hin.
      destruct Hin as [<- | [<- | [<- | []]]]; split; simpl; first [reflexivity | lia].
    + reflexivity.
    + exists s'. split; [exact Hrun | exact Hsize].
  - destruct (history_size [Scenario.above] Scenario.oneHand)
      as (s' & Hrun & _ & Hsize & _).
    + intros f' Hin. simpl in Hin.
      destruct Hin as [<- | [<- | []]]; split; simpl; first [reflexivity | lia].
    + reflexivity.
    + exists s'. split; [exact Hrun | exact Hsize].
Defined.

End HistoryClaims.

(** * Further properties *)

(** ** Audio service *)

Section AudioFacts.
Local Open Scope Q_scope.
Import AudioService.

(** The audio graph that [initialize] builds. *)
Lemma initialize_graph (b : Browser) (a : AudioService.t) :
  ctx a = None ->
  ready (initialize b a) = true /\
  contexts (initialize b a) = S (contexts a) /\
  masterGain (initialize b a) = Some {| gainValue := 4 # 10; toDestination := true |}.
Proof.
  intros Hc. unfold initialize, initializeStart. rewrite Hc. simpl.
  repeat split.
Qed.

Lemma react_constructed (e : Event) :
  asConstructed (react e start) \/ awaitingImpulse (react e start).
Proof.
  destruct e as [b | | | t x | st]; try (left; reflexivity).
  right. unfold awaitingImpulse. simpl. repeat split. eexists. reflexivity.
Qed.

Lemma react_awaiting (e : Event) (r : Run) :
  awaitingImpulse r -> awaitingImpulse (react e r) \/ graphBuilt (react e r).
Proof.
  destruct r as [[c rv mg n vs rc] q].
  unfold awaitingImpulse, graphBuilt, ready. cbn [service awaiting AudioService.ctx
    AudioService.masterGain AudioService.reverbNode contexts].
  intros (Hr & -> & -> & -> & impulse & ->).
  destruct c as [c |]; [| discriminate].
  destruct e as [b | | | t x | st].
  - left. cbn. repeat split. exists impulse. reflexivity.
  - right. cbn. repeat split. exists impulse. reflexivity.
  - left. unfold react, resume. cbn [service awaiting AudioService.ctx].
    destruct (state c); cbn; repeat split; exists impulse; reflexivity.
  - left. unfold react, playPluck.
    cbn [service awaiting AudioService.ctx AudioService.masterGain
         AudioService.reverbNode contexts].
    repeat split. exists impulse. reflexivity.
  - left. cbn. repeat split. exists impulse. reflexivity.
Qed.

Lemma react_built (e : Event) (r : Run) : graphBuilt r -> graphBuilt (react e r).
Proof.
  destruct r as [[c rv mg n vs rc] q].
  unfold graphBuilt, ready. cbn [service awaiting AudioService.ctx
    AudioService.masterGain AudioService.reverbNode contexts].
  intros (Hr & -> & -> & (impulse & ->) & ->).
  destruct c as [c |]; [| discriminate].
  destruct e as [b | | | t x | st].
  - cbn. repeat split. exists impulse. reflexivity.
  - cbn. repeat split. exists impulse. reflexivity.
  - unfold react, resume. cbn [service awaiting AudioService.ctx].
    destruct (state c); cbn; repeat split; exists impulse; reflexivity.
  - unfold react, playPluck.
    cbn [service awaiting AudioService.ctx AudioService.masterGain
         AudioService.reverbNode contexts].
    repeat split. exists impulse. reflexivity.
  - cbn. repeat split. exists impulse. reflexivity.
Qed.

(** X7.  Whatever events the service has seen since its construction
    (calls of [initialize], [resume] and [playPluck] in any order, none of
    them waiting for an [initialize] to complete; the remainder of an
    [initialize] running once its impulse response is there; the browser
    changing the state of the context), the run has one of three shapes:
    as constructed; awaiting the impulse response, with the three fields
    set, one audio context, the master gain at 0.4 feeding the destination,
    a reverb without buffer that feeds nothing, and one suspended call; or
    built, with one audio context, the same master gain, the reverb holding
    its impulse and feeding the master gain, and no suspended call. *)
Theorem reachable_states (r : Run) :
  reachable r -> asConstructed r \/ awaitingImpulse r \/ graphBuilt r.
Proof.
  intros [es ->]. unfold reactAll.
  assert (Hstart : asConstructed start \/ awaitingImpulse start \/ graphBuilt start)
    by (left; reflexivity).
  revert Hstart. generalize start as r.
  induction es as [| e es IH]; intros r Hr; [exact Hr |].
  simpl. apply IH. destruct Hr as [-> | [Hr | Hr]].
  - destruct (react_constructed e) as [H | H]; [left | right; left]; exact H.
  - destruct (react_awaiting e r Hr) as [H | H]; [right; left | right; right]; exact H.
  - right. right. apply react_built, Hr.
Qed.

(** A pluck before [initialize], an [initialize] that nobody awaits, and
    a pluck while it is suspended: the run is in the second shape, and the
    second pluck has started a voice. *)
Lemma reachable_states_witness :
  let b := mkBrowser (mkContext suspended 48000) (fun _ => 1 # 2) in
  let r := reactAll [playPluckCalled 0 (1 # 2); initializeCalled b;
                     playPluckCalled 1 (1 # 2)] start in
  reachable r /\ awaitingImpulse r /\ List.length (voices (service r)) = 1%nat.
Proof.
  intros b r.
  assert (Hr : reachable r) by (eexists; reflexivity).
  split; [exact Hr |]. split; [| reflexivity].
  destruct (reachable_states r Hr) as [Hc | [Ha | Hb]].
  - discriminate Hc.
  - exact Ha.
  - destruct Hb as (_ & _ & _ & _ & Hq). discriminate Hq.
Defined.

Lemma playPluck_voice (t x : Q) (a : AudioService.t) :
  ready a = true -> exists v : Voice, voices (playPluck t x a) = voices a ++ [v].
Proof.
  unfold ready, playPluck.
  destruct (ctx a), (masterGain a), (reverbNode a); try discriminate.
  intros _. eexists. reflexivity.
Qed.

(** X8.  On a ready service the voices only accumulate: a sequence of
    calls keeps the voices there were, in order, and adds one voice for each
    [playPluck] among the calls. *)
Theorem voices_accumulate (cs : list Call) (a : AudioService.t) :
  ready a = true ->
  exists vs : list Voice,
    voices (performAll cs a) = voices a ++ vs /\ List.length vs = plucks cs.
Proof.
  revert a. induction cs as [| c cs IH]; intros a Hr.
  - exists []. split; [symmetry; apply app_nil_r | reflexivity].
  - destruct (perform_ready c a Hr) as [Hr' _].
    destruct (IH (perform c a) Hr') as (vs & Hvs & Hlen).
    change (performAll (c :: cs) a) with (performAll cs (perform c a)).
    destruct c as [b | | t x].
    + exists vs. split; [| exact Hlen]. rewrite Hvs. simpl.
      rewrite (initialize_noop b a (ready_ctx a Hr)). reflexivity.
    + exists vs. split; [| exact Hlen]. rewrite Hvs. simpl. unfold resume.
      destruct (ctx a) as [c |]; [destruct (state c) |]; reflexivity.
    + destruct (playPluck_voice t x a Hr) as (v & Hv).
      exists (v :: vs). split.
      * rewrite Hvs. simpl perform. rewrite Hv, <- app_assoc. reflexivity.
      * unfold plucks in *. simpl. rewrite Hlen. reflexivity.
Qed.

Lemma voices_accumulate_witness :
  let b := mkBrowser (mkContext suspended 48000) (fun _ => 1 # 2) in
  let a := initialize b constructor in
  ready a = true /\
  exists vs : list Voice,
    voices (performAll [callPlayPluck 0 0; callResume; callPlayPluck 1 1] a)
    = voices a ++ vs /\ List.length vs = 2%nat.
Proof.
  intros b a. split; [reflexivity |].
  exact (voices_accumulate [callPlayPluck 0 0; callResume; callPlayPluck 1 1] a eq_refl).
Defined.

(** X9.  A [playPluck] that arrives while [initialize] is awaiting its
    impulse response commutes with the completion of [initialize]: the
    voice is kept, and the reverb gets its impulse all the same. *)
Theorem playPluck_while_initializing (b : Browser) (t x : Q) (a : AudioService.t)
    (pending : option AudioBuffer) :
  initializeFinish pending (playPluck t x a) = playPluck t x (initializeFinish pending a)
  /\ (ctx a = None ->
      let s1 := fst (initializeStart b a) in
      let p := snd (initializeStart b a) in
      List.length (voices (initializeFinish p (playPluck t x s1)))
      = S (List.length (voices a))).
Proof.
  split.
  - unfold initializeFinish, playPluck.
    destruct pending as [impulse |]; [| reflexivity].
    destruct a as [c r m n vs]. destruct c, m, r; reflexivity.
  - intros Hc. unfold initializeStart. rewrite Hc. simpl.
    rewrite length_app. simpl. lia.
Qed.

Lemma playPluck_while_initializing_witness :
  let b := mkBrowser (mkContext suspended 48000) (fun _ => 1 # 2) in
  ctx constructor = None /\
  List.length
    (voices (initializeFinish (snd (initializeStart b constructor))
               (playPluck 0 (1 # 2) (fst (initializeStart b constructor)))))
  = 1%nat.
Proof.
  intros b. split; [reflexivity |].
  exact (proj2 (playPluck_while_initializing b 0 (1 # 2) constructor None) eq_refl).
Defined.

Lemma resume_ready (a : AudioService.t) : ready (resume a) = ready a.
Proof.
  unfold resume, ready. destruct (ctx a) as [c |] eqn:Hc; [| rewrite Hc; reflexivity].
  destruct (state c); simpl; rewrite ?Hc; reflexivity.
Qed.

(** [resume] assigns none of the fields of the service; it calls
    [ctx.resume()] once when the context reads suspended, and not
    otherwise. *)
Lemma resume_frame (a : AudioService.t) :
  ctx (resume a) = ctx a /\ masterGain (resume a) = masterGain a /\
  reverbNode (resume a) = reverbNode a /\ contexts (resume a) = contexts a /\
  voices (resume a) = voices a /\
  resumeCalls (resume a) = (resumeCalls a + if isSuspended a then 1 else 0)%nat.
Proof.
  unfold resume, isSuspended.
  destruct (ctx a) as [c |] eqn:Hc; [destruct (state c) |];
    simpl; rewrite ?Hc; repeat split; lia.
Qed.

End AudioFacts.

(** ** The start button *)

Section StartFacts.
Local Open Scope Q_scope.
Import AudioService App.

(** X11.  After [handleStart] the permission flag is set and the service
    has a context.  On a service without a context, [handleStart] leaves
    the service ready with one context more, which is the context the
    browser gave, its state as the browser gave it; [ctx.resume()] has been
    called once if that state is suspended, and not otherwise.  On a
    service that has a context (a second press of the button, whatever the
    browser made of the context in between) nothing is built: the context,
    the two nodes, the number of contexts and the voices are as before,
    and [ctx.resume()] is called once more exactly when the context still
    reads suspended. *)
Theorem handleStart_twice (b b' : Browser) (s s' : App.State) :
  permissionGranted (handleStart b s) = true /\
  ctx (audio (handleStart b s)) <> None /\
  (ctx (audio s) = None ->
   ready (audio (handleStart b s)) = true /\
   contexts (audio (handleStart b s)) = S (contexts (audio s)) /\
   ctx (audio (handleStart b s)) = Some (newContext b) /\
   resumeCalls (audio (handleStart b s))
   = (resumeCalls (audio s)
      + match state (newContext b) with suspended => 1 | _ => 0 end)%nat) /\
  (ctx (audio s') <> None ->
   ctx (audio (handleStart b' s')) = ctx (audio s') /\
   masterGain (audio (handleStart b' s')) = masterGain (audio s') /\
   reverbNode (audio (handleStart b' s')) = reverbNode (audio s') /\
   contexts (audio (handleStart b' s')) = contexts (audio s') /\
   voices (audio (handleStart b' s')) = voices (audio s') /\
   resumeCalls (audio (handleStart b' s'))
   = (resumeCalls (audio s') + if isSuspended (audio s') then 1 else 0)%nat).
Proof.
  unfold handleStart. cbn [audio permissionGranted].
  split; [reflexivity |]. split; [| split].
  - destruct (resume_frame (initialize b (audio s))) as (Hc & _). rewrite Hc.
    unfold initialize, initializeStart.
    destruct (ctx (audio s)) as [c |] eqn:Hctx; simpl; [rewrite Hctx |]; discriminate.
  - intros Hnone.
    destruct (initialize_graph b (audio s) Hnone) as (Hr & Hcount & _).
    destruct (resume_frame (initialize b (audio s))) as (Hc & _ & _ & Hn & _ & Hcalls).
    rewrite resume_ready, Hn, Hc, Hcalls.
    split; [exact Hr |]. split; [exact Hcount |].
    unfold initialize, initializeStart, isSuspended. rewrite Hnone. simpl.
    split; [reflexivity |]. destruct (state (newContext b)); reflexivity.
  - intros Hsome. rewrite (initialize_noop b' (audio s') Hsome).
    apply resume_frame.
Qed.

(** The first press on a fresh service, with a context that the browser
    creates suspended; then a second press while it is still suspended. *)
Lemma handleStart_twice_witness :
  let b := mkBrowser (mkContext suspended 48000) (fun _ => 1 # 2) in
  let s := mkApp constructor false in
  let s1 := handleStart b s in
  ctx (audio s) = None /\
  ready (audio s1) = true /\ contexts (audio s1) = 1%nat /\
  resumeCalls (audio s1) = 1%nat /\
  ctx (audio s1) <> None /\
  contexts (audio (handleStart b s1)) = 1%nat /\
  resumeCalls (audio (handleStart b s1)) = 2%nat.
Proof.
  intros b s s1.
  destruct (handleStart_twice b b s s1) as (_ & Hctx & Hfirst & Hsecond).
  destruct (Hfirst eq_refl) as (Hr & Hc & _ & Hcalls).
  destruct (Hsecond Hctx) as (_ & _ & _ & Hc2 & _ & Hcalls2).
  split; [reflexivity |]. split; [exact Hr |]. split; [exact Hc |].
  split; [exact Hcalls |]. split; [exact Hctx |].
  split; [rewrite Hc2; exact Hc | rewrite Hcalls2; reflexivity].
Defined.

End StartFacts.

(** ** The impulse response *)

Section ImpulseFacts.
Local Open Scope Q_scope.
Import AudioService.

Lemma Qpower_positive_unit (q : Q) (p : positive) :
  0 <= q <= 1 -> 0 <= Qpower_positive q p <= 1.
Proof.
  intros Hq. induction p as [| p IH] using Pos.peano_ind.
  - simpl. exact Hq.
  - rewrite <- Pos.add_1_l, Qpower_plus_positive. simpl (Qpower_positive q 1).
    split; nra.
Qed.

Lemma Qpower_unit (q : Q) (z : Z) :
  0 <= q <= 1 -> (0 <= z)%Z -> 0 <= q ^ z <= 1.
Proof.
  intros Hq Hz. destruct z as [| p | p]; simpl.
  - split; discriminate.
  - apply Qpower_positive_unit, Hq.
  - lia.
Qed.

(** The envelope factor of sample [i] lies between 0 and 1. *)
Lemma envelope_unit (length : Q) (reverse : bool) (i : nat) :
  inject_Z (Z.of_nat i) < length ->
  let n := if reverse then length - inject_Z (Z.of_nat i) else inject_Z (Z.of_nat i) in
  0 <= 1 - n / length <= 1.
Proof.
  intros Hi n.
  assert (H0 : 0 <= inject_Z (Z.of_nat i)).
  { change 0 with (inject_Z 0). rewrite <- Zle_Qle. lia. }
  assert (Hlen : 0 < length) by lra.
  assert (Hn : n == (n / length) * length) by (field; lra).
  assert (Hrange : 0 <= n <= length) by (unfold n; destruct reverse; lra).
  set (q := n / length) in *. clearbody q.
  split; nra.
Qed.

(** X12.  When [Math.random] returns numbers from 0 up to but excluding 1,
    every sample of the impulse response lies between -1 and 1, for both
    channels and in both directions. *)
Theorem createImpulseResponse_bounded (b : Browser) (c : AudioContext)
    (duration : Q) (decay : Z) (reverse : bool) (i : nat) :
  (forall k, 0 <= random b k /\ random b k < 1) ->
  (0 <= decay)%Z ->
  let impulse := createImpulseResponse b c duration decay reverse in
  (-1 <= left impulse i <= 1) /\ (-1 <= right impulse i <= 1).
Proof.
  intros Hrand Hdecay. cbn zeta. unfold createImpulseResponse. cbn [left right length].
  set (len := sampleRate c * duration).
  destruct (Qlt_bool (inject_Z (Z.of_nat i)) len) eqn:Hlt.
  - apply Qlt_bool_iff in Hlt.
    pose proof (Qpower_unit _ decay (envelope_unit len reverse i Hlt) Hdecay) as Hpow.
    cbn zeta in Hpow.
    set (e := (1 - (if reverse then len - inject_Z (Z.of_nat i)
                    else inject_Z (Z.of_nat i)) / len) ^ decay) in *.
    clearbody e.
    destruct (Hrand (2 * i)%nat) as [Hl0 Hl1].
    destruct (Hrand (2 * i + 1)%nat) as [Hr0 Hr1].
    repeat split; nra.
  - repeat split; discriminate.
Qed.

Lemma createImpulseResponse_bounded_witness :
  let b := mkBrowser (mkContext running 48000) (fun k => 1 # 3) in
  (forall k, 0 <= random b k /\ random b k < 1) /\
  -1 <= left (createImpulseResponse b (newContext b) 2 2 false) 7 <= 1.
Proof.
  intros b.
  assert (Hrand : forall k, 0 <= random b k /\ random b k < 1).
  { intros k. simpl. split; [discriminate | reflexivity]. }
  split; [exact Hrand |].
  apply (createImpulseResponse_bounded b (newContext b) 2 2 false 7 Hrand). lia.
Defined.

End ImpulseFacts.

(** ** The landmark extractor *)

Section ExtractorFacts.
Local Open Scope Q_scope.
Import StarryCanvas.

(** One hand: the two landmarks read, the plucker appended, and the anchor
    that the hand fills, if one is still missing. *)
Lemma scanHand_exact (w h : Q) (acc acc' : Hands) (landmarks : list HandLandmark.t) :
  scanHand w h acc landmarks = Some acc' ->
  exists l8 l12,
    landmarks !! 8%nat = Some l8 /\ landmarks !! 12%nat = Some l12 /\
    activePluckers acc' = activePluckers acc ++ [toPixels w h l12] /\
    leftIndex acc' =
      match leftIndex acc with
      | Some l => Some l
      | None => Some (toPixels w h l8)
      end /\
    rightIndex acc' =
      match leftIndex acc, rightIndex acc with
      | Some _, None => Some (toPixels w h l8)
      | _, r => r
      end.
Proof.
  unfold scanHand.
  destruct (landmarks !! 8%nat) as [l8 |]; [| discriminate].
  destruct (landmarks !! 12%nat) as [l12 |]; [| discriminate].
  intros [= <-]. exists l8, l12.
  destruct (leftIndex acc) eqn:Hl; [destruct (rightIndex acc) eqn:Hr |]; simpl;
    rewrite ?Hl, ?Hr; repeat split; reflexivity.
Qed.

Lemma scanHands_fixed (w h : Q) (hands : list (list HandLandmark.t)) (acc res : Hands) :
  scanHands w h hands acc = Some res ->
  forallb (fun landmarks => (12 <? List.length landmarks)%nat) hands = true.
Proof.
  revert acc. induction hands as [| lm rest IH]; intros acc; simpl; [reflexivity |].
  destruct (scanHand w h acc lm) as [acc' |] eqn:Hstep; [| discriminate].
  intros Hrest. apply andb_true_iff. split; [| apply (IH acc' Hrest)].
  apply scanHand_exact in Hstep as (l8 & l12 & _ & H12 & _).
  apply Nat.ltb_lt. apply lookup_lt_Some in H12. exact H12.
Qed.

(** The pluckers are the scaled middle tips of the hands, in order. *)
Lemma scanHands_tips (w h : Q) (hands : list (list HandLandmark.t)) (acc res : Hands) :
  scanHands w h hands acc = Some res ->
  exists tips,
    activePluckers res = activePluckers acc ++ tips /\
    Forall2 (fun lm p => exists l12, lm !! 12%nat = Some l12 /\ p = toPixels w h l12)
      hands tips.
Proof.
  revert acc. induction hands as [| lm rest IH]; intros acc; simpl.
  - intros [= <-]. exists []. split; [symmetry; apply app_nil_r | constructor].
  - destruct (scanHand w h acc lm) as [acc' |] eqn:Hstep; [| discriminate].
    intros Hrest. destruct (IH acc' Hrest) as (tips & Htips & Hall).
    apply scanHand_exact in Hstep as (l8 & l12 & _ & H12 & Hp & _).
    exists (toPixels w h l12 :: tips). split.
    + rewrite Htips, Hp, <- app_assoc. reflexivity.
    + constructor; [exists l12; split; [exact H12 | reflexivity] | exact Hall].
Qed.

(** X13.  The roles are positional.  The pluckers are the middle tips
    (landmark 12) of all the hands, in detection order; the left anchor is
    the index tip (landmark 8) of the first hand, the right anchor that of
    the second; further hands give no anchor.  All are scaled by the
    canvas size. *)
Theorem findHands_roles (f : Frame) (w h : Q) (res : Hands) :
  findHands w h (results f) = Some res ->
  List.length (activePluckers res) = List.length (detectedHands f) /\
  (forall k lm, detectedHands f !! k = Some lm ->
     exists l12, lm !! 12%nat = Some l12 /\
                 activePluckers res !! k = Some (toPixels w h l12)) /\
  match detectedHands f !! 0%nat with
  | Some lm => exists l8, lm !! 8%nat = Some l8 /\ leftIndex res = Some (toPixels w h l8)
  | None => leftIndex res = None
  end /\
  match detectedHands f !! 1%nat with
  | Some lm => exists l8, lm !! 8%nat = Some l8 /\ rightIndex res = Some (toPixels w h l8)
  | None => rightIndex res = None
  end.
Proof.
  intros Hf. split; [apply (findHands_anchors f w h res Hf) |].
  unfold findHands, detectedHands in *.
  destruct (HandResults.multiHandLandmarks (results f)) as [hands |].
  2: { injection Hf as <-. split; [intros k lm Hk; discriminate |].
       split; reflexivity. }
  split.
  - destruct (scanHands_tips w h hands noHands res Hf) as (tips & Htips & Hall).
    simpl in Htips. subst tips. intros k lm Hk.
    destruct (Forall2_lookup_l _ _ _ _ _ Hall Hk) as (p & Hp & l12 & H12 & ->).
    exists l12. split; assumption.
  - destruct hands as [| h1 [| h2 rest]]; simpl in *.
    + injection Hf as <-. split; reflexivity.
    + destruct (scanHand w h noHands h1) as [acc1 |] eqn:H1; [| discriminate].
      injection Hf as <-.
      apply scanHand_exact in H1 as (l8 & _ & H8 & _ & _ & Hl & Hr). simpl in Hl, Hr.
      split; [exists l8; split; assumption | exact Hr].
    + destruct (scanHand w h noHands h1) as [acc1 |] eqn:H1; [| discriminate].
      destruct (scanHand w h acc1 h2) as [acc2 |] eqn:H2; [| discriminate].
      apply scanHand_exact in H1 as (l8 & _ & H8 & _ & _ & Hl1 & Hr1). simpl in Hl1, Hr1.
      apply scanHand_exact in H2 as (l8' & _ & H8' & _ & _ & Hl2 & Hr2).
      rewrite Hl1 in Hl2, Hr2. rewrite Hr1 in Hr2.
      destruct (scanHands_anchors_kept _ _ _ _ _ _ _ Hl2 Hr2 Hf) as [-> ->].
      split; [exists l8 | exists l8']; split; assumption || reflexivity.
Qed.

Lemma findHands_roles_witness :
  exists res : Hands,
    findHands 100 100 (results Scenario.threeHands) = Some res /\
    List.length (activePluckers res) = 3%nat /\
    exists l8, Scenario.hand (1, 0) (9 # 10, 1 # 2) !! 8%nat = Some l8 /\
               rightIndex res = Some (toPixels 100 100 l8).
Proof.
  destruct (findHands 100 100 (results Scenario.threeHands)) as [res |] eqn:Hf;
    [| discriminate Hf].
  exists res. split; [reflexivity |].
  destruct (findHands_roles Scenario.threeHands 100 100 res Hf) as (Hlen & _ & _ & Hright).
  split; [exact Hlen | exact Hright].
Defined.

(** X14.  The callback raises exactly when it gets past its early return
    and some detected hand lacks landmark 8 or 12; when it takes the early
    return it leaves the state as it was and logs nothing. *)
Theorem onResults_raises (f : Frame) (s : State) :
  (onResults f s = None <-> surface f <> None /\ fixedLayout f = false) /\
  (surface f = None -> onResults f s = Some (s, [])).
Proof.
  split.
  - unfold onResults, upToCollisions, surface.
    destruct (canvasRef f) as [canvas |]; [| split; [discriminate | intros [H _]; contradiction]].
    destruct (context2d canvas && backgroundRef f);
      [| split; [discriminate | intros [H _]; contradiction]].
    destruct (findHands (width canvas) (height canvas) (results f)) as [h |] eqn:Hf.
    + destruct (checkCollisions f (width canvas) h s) as [s1 log].
      split; [discriminate |]. intros [_ Hfixed]. exfalso.
      unfold findHands, fixedLayout, detectedHands in *.
      destruct (HandResults.multiHandLandmarks (results f)) as [hands |]; [| discriminate].
      rewrite (scanHands_fixed _ _ _ _ _ Hf) in Hfixed. discriminate.
    + split; [| reflexivity]. intros _. split; [discriminate |].
      apply not_true_is_false. intros Hfixed.
      destruct (findHands_total f (width canvas) (height canvas) Hfixed) as [h Hh].
      congruence.
  - intros Hs. unfold onResults. rewrite (upToCollisions_returned f s Hs). reflexivity.
Qed.

Lemma onResults_raises_witness :
  let f := Scenario.frame [[Scenario.origin]] 0 in
  surface f <> None /\ fixedLayout f = false /\ onResults f initialState = None.
Proof.
  intros f.
  assert (H : surface f <> None /\ fixedLayout f = false) by (split; [discriminate | reflexivity]).
  split; [apply H |]. split; [apply H |].
  exact (proj2 (proj1 (onResults_raises f initialState)) H).
Defined.

End ExtractorFacts.

(** ** The crossing detector, frame by frame *)

Section DetectorFacts.
Local Open Scope Q_scope.
Import StarryCanvas.

Lemma crossingLog_cases (w : Q) (a b p : Point.t) (i : nat) (m : gmap string Point.t) :
  crossingLog w a b p i m = [] \/
  crossingLog w a b p i m =
    [(i, {| point := p; normalizedPosition := Point.x p / w |})].
Proof.
  unfold crossingLog. destruct (m !! pluckerKey i) as [prev |]; [| left; reflexivity].
  destruct (MathUtils.getLineIntersection prev p a b); [right | left]; reflexivity.
Qed.

Lemma collisionLog_sorted (w : Q) (a b : Point.t) (ps : list Point.t) (i : nat)
    (m : gmap string Point.t) :
  StronglySorted lt (slots (collisionLog w a b i ps m)) /\
  Forall (fun k => (i <= k < i + List.length ps)%nat) (slots (collisionLog w a b i ps m)) /\
  (List.length (collisionLog w a b i ps m) <= List.length ps)%nat.
Proof.
  revert i m. induction ps as [| p rest IH]; intros i m; simpl.
  - repeat split; constructor.
  - destruct (IH (S i) (<[pluckerKey i := p]> m)) as (Hs & Hr & Hl).
    assert (Hr' : Forall (fun k => (i <= k < i + S (List.length rest))%nat)
                    (slots (collisionLog w a b (S i) rest (<[pluckerKey i := p]> m)))).
    { eapply Forall_impl; [exact Hr |]. simpl. intros k Hk. lia. }
    destruct (crossingLog_cases w a b p i m) as [-> | ->]; simpl.
    + repeat split; [exact Hs | exact Hr' | lia].
    + repeat split.
      * constructor; [exact Hs |].
        eapply Forall_impl; [exact Hr |]. simpl. intros k Hk. lia.
      * constructor; [lia | exact Hr'].
      * lia.
Qed.


(** The log of a frame is empty, or it is the log of the collision checks
    of a frame that has its canvas and both anchors. *)
Lemma frameLog_cases (f : Frame) (s : State) :
  frameLog f s = [] \/
  exists canvas h a b,
    surface f = Some canvas /\
    findHands (width canvas) (height canvas) (results f) = Some h /\
    leftIndex h = Some a /\ rightIndex h = Some b /\
    detectedPluckers f = activePluckers h /\
    frameLog f s
    = collisionLog (width canvas) a b 0 (activePluckers h) (prevHandPosRef s).
Proof.
  destruct (surface f) as [canvas |] eqn:Hs.
  2: { left. unfold frameLog, onResults. rewrite (upToCollisions_returned f s Hs).
       reflexivity. }
  destruct (findHands (width canvas) (height canvas) (results f)) as [h |] eqn:Hf.
  2: { left. unfold frameLog, onResults, upToCollisions.
       destruct (surface_inv f canvas Hs) as [-> ->]. rewrite Hf. reflexivity. }
  destruct (leftIndex h) as [a |] eqn:Ha; [destruct (rightIndex h) as [b |] eqn:Hb |].
  - right. exists canvas, h, a, b. repeat split; try assumption.
    + apply (detectedPluckers_eq f canvas h Hs Hf).
    + unfold frameLog, onResults.
      rewrite (upToCollisions_string f s canvas h a b Hs Hf Ha Hb). reflexivity.
  - left. unfold frameLog, onResults.
    rewrite (upToCollisions_reset f s canvas h Hs Hf (or_intror Hb)). reflexivity.
  - left. unfold frameLog, onResults.
    rewrite (upToCollisions_reset f s canvas h Hs Hf (or_introl Ha)). reflexivity.
Qed.

(** A frame that runs its update with two hands or more has both anchors. *)
Lemma frame_with_string (f : Frame) :
  updates f = true -> (2 <= List.length (detectedHands f))%nat ->
  exists canvas h a b,
    surface f = Some canvas /\
    findHands (width canvas) (height canvas) (results f) = Some h /\
    leftIndex h = Some a /\ rightIndex h = Some b /\
    detectedPluckers f = activePluckers h.
Proof.
  unfold updates. destruct (surface f) as [canvas |] eqn:Hs; [| discriminate].
  intros Hfixed Htwo.
  destruct (findHands_total f (width canvas) (height canvas) Hfixed) as [h Hf].
  destruct (findHands_anchors f _ _ h Hf) as (_ & _ & Hboth).
  destruct (Hboth Htwo) as [Ha Hb].
  destruct (leftIndex h) as [a |] eqn:Hl; [| contradiction].
  destruct (rightIndex h) as [b |] eqn:Hr; [| contradiction].
  exists canvas, h, a, b. repeat split; try assumption; try reflexivity.
  apply (detectedPluckers_eq f canvas h Hs Hf).
Qed.

(** X15.  In every frame the log has at most one event per plucker: its
    slots are strictly increasing and below the number of detected
    pluckers, so that it is no longer than the list of pluckers. *)
Theorem frameLog_slots (f : Frame) (s : State) :
  StronglySorted lt (slots (frameLog f s)) /\
  Forall (fun k => (k < List.length (detectedPluckers f))%nat) (slots (frameLog f s)) /\
  (List.length (frameLog f s) <= List.length (detectedPluckers f))%nat.
Proof.
  destruct (frameLog_cases f s) as [-> | (canvas & h & a & b & _ & _ & _ & _ & -> & ->)].
  - repeat split; try constructor. simpl. lia.
  - destruct (collisionLog_sorted (width canvas) a b (activePluckers h) 0 (prevHandPosRef s))
      as (Hs & Hr & Hl).
    repeat split; [exact Hs | | exact Hl].
    eapply Forall_impl; [exact Hr |]. simpl. intros k Hk. lia.
Qed.

Lemma still_no_intersection (p a b : Point.t) :
  MathUtils.getLineIntersection p p a b = false.
Proof.
  unfold MathUtils.getLineIntersection.
  assert (Hd : MathUtils.det p p a b == 0) by (unfold MathUtils.det; ring).
  apply Qeq_bool_iff in Hd. rewrite Hd. reflexivity.
Qed.

(** X16.  A plucker that is at the same place in two consecutive frames
    that both have the string does not pluck in the second, wherever the
    string is. *)
Theorem still_plucker_silent (f1 f2 : Frame) (s : State) (k : nat) (p : Point.t) :
  updates f1 = true -> (2 <= List.length (detectedHands f1))%nat ->
  updates f2 = true -> (2 <= List.length (detectedHands f2))%nat ->
  detectedPluckers f1 !! k = Some p ->
  detectedPluckers f2 !! k = Some p ->
  exists s1 log1,
    onResults f1 s = Some (s1, log1) /\ eventsOf k (frameLog f2 s1) = [].
Proof.
  intros Hu1 H1 Hu2 H2 Hp1 Hp2.
  destruct (frame_with_string f1 Hu1 H1) as (c1 & h1 & a1 & b1 & Hs1 & Hf1 & Ha1 & Hb1 & Hd1).
  destruct (frame_with_string f2 Hu2 H2) as (c2 & h2 & a2 & b2 & Hs2 & Hf2 & Ha2 & Hb2 & Hd2).
  rewrite Hd1 in Hp1. rewrite Hd2 in Hp2.
  unfold onResults at 1. rewrite (upToCollisions_string f1 s c1 h1 a1 b1 Hs1 Hf1 Ha1 Hb1).
  eexists _, _. split; [reflexivity |].
  rewrite (eventsOf_string f2 _ c2 h2 a2 b2 p k Hs2 Hf2 Ha2 Hb2 Hp2).
  unfold crossingLog. cbn [prevHandPosRef].
  rewrite (updatedHistory_slot (activePluckers h1) 0 k _ p Hp1).
  rewrite still_no_intersection. reflexivity.
Qed.

Lemma still_plucker_silent_witness :
  exists s1 log1,
    onResults Scenario.below initialState = Some (s1, log1) /\
    eventsOf 0 (frameLog Scenario.idle s1) = [].
Proof.
  apply (still_plucker_silent Scenario.below Scenario.idle initialState 0
           (toPixels 100 100 (HandLandmark.mk (1 # 2) (1 # 10) 0)));
    try reflexivity; simpl; lia.
Defined.

(** X17.  After a frame that has the string, the history holds the current
    position of every detected plucker, and every other key keeps the value
    it had: a key is never removed one at a time. *)
Theorem history_after_frame (f : Frame) (s : State) :
  updates f = true -> (2 <= List.length (detectedHands f))%nat ->
  exists s' log,
    onResults f s = Some (s', log) /\
    (forall k p, detectedPluckers f !! k = Some p ->
                 prevHandPosRef s' !! pluckerKey k = Some p) /\
    (forall key,
        (forall k, (k < List.length (detectedPluckers f))%nat -> key <> pluckerKey k) ->
        prevHandPosRef s' !! key = prevHandPosRef s !! key).
Proof.
  intros Hu Htwo.
  destruct (frame_with_string f Hu Htwo) as (c & h & a & b & Hs & Hf & Ha & Hb & Hd).
  unfold onResults. rewrite (upToCollisions_string f s c h a b Hs Hf Ha Hb).
  eexists _, _. split; [reflexivity |]. cbn [prevHandPosRef]. rewrite Hd. split.
  - intros k p Hk. apply (updatedHistory_slot (activePluckers h) 0 k _ p Hk).
  - intros key Hkey. apply updatedHistory_other. intros k Hk. apply Hkey. lia.
Qed.

Lemma history_after_frame_witness :
  exists s',
    runFrames [Scenario.threeHands; Scenario.idle] initialState = Some s' /\
    prevHandPosRef s' !! pluckerKey 2
    = Some (toPixels 100 100 (HandLandmark.mk (1 # 5) (1 # 5) 0)).
Proof.
  pose (s1 := default initialState (runFrames [Scenario.threeHands] initialState)).
  destruct (history_after_frame Scenario.idle s1) as (s' & log & Hrun & _ & Hother);
    [reflexivity | simpl; lia |].
  exists s'. split.
  - change (runFrames [Scenario.threeHands; Scenario.idle] initialState)
      with (match onResults Scenario.idle s1 with
            | Some (s2, _) => Some s2 | None => None end).
    rewrite Hrun. reflexivity.
  - rewrite (Hother (pluckerKey 2)); [vm_compute; reflexivity |].
    intros k Hk. apply pluckerKey_ne. simpl in Hk. lia.
Defined.

End DetectorFacts.

(** ** From a crossing to its sound *)

Section PluckFacts.
Local Open Scope Q_scope.
Import StarryCanvas.




End PluckFacts.

(** ** The ripple simulator over runs *)

Section RippleInvariants.
Local Open Scope Q_scope.
Import StarryCanvas.

(** What reaches the ripple pass: the old live set, then one new ripple
    for each event of the log, which is no longer than the list of hands. *)
Lemma upToCollisions_ripples (f : Frame) (s s1 : State) (log : Log) :
  upToCollisions f s = Continues s1 log ->
  ripplesRef s1 = ripplesRef s ++ List.map (spawnedBy f) log /\
  (List.length log <= List.length (detectedHands f))%nat.
Proof.
  unfold upToCollisions.
  destruct (canvasRef f) as [canvas |]; [| discriminate].
  destruct (context2d canvas && backgroundRef f); [| discriminate].
  destruct (findHands (width canvas) (height canvas) (results f)) as [h |] eqn:Hf;
    [| discriminate].
  destruct (findHands_anchors f _ _ h Hf) as (Hlen & _ & _).
  unfold checkCollisions.
  destruct (leftIndex h) as [a |]; [destruct (rightIndex h) as [b |] |].
  - rewrite forEachPlucker_eq. intros [= <- <-]. split; [reflexivity |].
    rewrite <- Hlen. apply collisionLog_sorted.
  - intros [= <- <-]. simpl. split; [symmetry; apply app_nil_r | lia].
  - intros [= <- <-]. simpl. split; [symmetry; apply app_nil_r | lia].
Qed.

Lemma onResults_ripples (f : Frame) (s s' : State) (log : Log) :
  onResults f s = Some (s', log) ->
  ripplesRef s' = ripplesRef s \/
  exists spawned,
    ripplesRef s' = advanceRipples (ripplesRef s ++ spawned) /\
    (List.length spawned <= List.length (detectedHands f))%nat /\
    Forall (fun r => Ripple.age r == 0 /\ Ripple.maxAge r == 60 /\ Ripple.intensity r == 1)
      spawned.
Proof.
  unfold onResults. destruct (upToCollisions f s) as [| | s1 log1] eqn:Hup; [discriminate | |].
  - intros [= <- _]. left. reflexivity.
  - intros [= <- <-]. right. apply upToCollisions_ripples in Hup as [Hrip Hlen].
    exists (List.map (spawnedBy f) log1). simpl. rewrite Hrip.
    split; [reflexivity |]. split; [rewrite length_map; exact Hlen |].
    apply Forall_forall. intros r Hin. apply list_elem_of_In, in_map_iff in Hin as (e & <- & _).
    simpl. repeat split; reflexivity.
Qed.

Lemma advanceRipples_In (r : Ripple.t) (rs : list Ripple.t) :
  In r (advanceRipples rs) ->
  exists r0, In r0 rs /\ r = ageRipple r0 /\ Ripple.age r0 + 1 < Ripple.maxAge r0.
Proof.
  unfold advanceRipples. intros Hin. apply filter_In in Hin as [Hin Hkeep].
  apply in_map_iff in Hin as (r0 & <- & Hin0). exists r0.
  split; [exact Hin0 |]. split; [reflexivity |]. apply Qlt_bool_iff in Hkeep. exact Hkeep.
Qed.

Lemma advanceRipples_live (rs spawned : list Ripple.t) :
  Forall liveRipple rs ->
  Forall (fun r => Ripple.age r == 0 /\ Ripple.maxAge r == 60 /\ Ripple.intensity r == 1)
    spawned ->
  Forall liveRipple (advanceRipples (rs ++ spawned)).
Proof.
  intros Hrs Hsp. apply Forall_forall. intros r Hin.
  apply list_elem_of_In, advanceRipples_In in Hin as (r0 & Hin0 & -> & Hkeep).
  apply in_app_or in Hin0 as [Hin0 | Hin0].
  - rewrite Forall_forall in Hrs.
    destruct (Hrs r0 (proj2 (list_elem_of_In _ _) Hin0)) as ((k & Hk & Hage) & Hmax & Hint).
    rewrite Hage, Hmax in Hkeep.
    assert (Hk' : (Z.of_nat k + 1 < 60)%Z).
    { rewrite Zlt_Qlt, inject_Z_plus. exact Hkeep. }
    unfold liveRipple. simpl. split; [| split; assumption].
    exists (S k). split; [lia |].
    rewrite Hage, Nat2Z.inj_succ. unfold Z.succ. rewrite inject_Z_plus. reflexivity.
  - rewrite Forall_forall in Hsp.
    destruct (Hsp r0 (proj2 (list_elem_of_In _ _) Hin0)) as (Hage & Hmax & Hint).
    unfold liveRipple. simpl. split; [| split; assumption].
    exists 1%nat. split; [lia |]. rewrite Hage. reflexivity.
Qed.

Lemma liveRipple_life (r : Ripple.t) : liveRipple r -> 0 < life r /\ life r < 1.
Proof.
  intros ((k & Hk & Hage) & Hmax & _). unfold life.
  assert (Hq : Ripple.age r / Ripple.maxAge r == inject_Z (Z.of_nat k) / 60)
    by (rewrite Hage, Hmax; reflexivity).
  rewrite Hq.
  assert (H1 : 1 <= inject_Z (Z.of_nat k)).
  { change 1 with (inject_Z 1). rewrite <- Zle_Qle. lia. }
  assert (H59 : inject_Z (Z.of_nat k) <= 59).
  { change 59 with (inject_Z 59). rewrite <- Zle_Qle. lia. }
  assert (Hn : inject_Z (Z.of_nat k) == (inject_Z (Z.of_nat k) / 60) * 60)
    by (field; discriminate).
  set (q := inject_Z (Z.of_nat k) / 60) in *. clearbody q.
  split; lra.
Qed.

(** X19.  Along any run, every ripple that is live between two frames has
    an integer age from 1 to 59, the lifetime 60 and the intensity 1, so
    that its [life] is strictly between 0 and 1. *)
Theorem live_ripples (fs : list Frame) (s s' : State) :
  Forall liveRipple (ripplesRef s) ->
  runFrames fs s = Some s' ->
  Forall (fun r => liveRipple r /\ 0 < life r /\ life r < 1) (ripplesRef s').
Proof.
  revert s. induction fs as [| f rest IH]; intros s Hs; simpl.
  - intros [= <-]. eapply Forall_impl; [exact Hs |].
    intros r Hr. split; [exact Hr | apply liveRipple_life, Hr].
  - destruct (onResults f s) as [[s1 log] |] eqn:Hstep; [| discriminate].
    apply IH.
    destruct (onResults_ripples f s s1 log Hstep) as [-> | (sp & -> & _ & Hsp)];
      [exact Hs | apply advanceRipples_live; assumption].
Qed.

Lemma live_ripples_witness :
  exists s',
    runFrames [Scenario.above; Scenario.below; Scenario.idle] initialState = Some s' /\
    Forall (fun r => liveRipple r /\ 0 < life r /\ life r < 1) (ripplesRef s') /\
    List.length (ripplesRef s') = 1%nat.
Proof.
  exists (default initialState
            (runFrames [Scenario.above; Scenario.below; Scenario.idle] initialState)).
  split; [vm_compute; reflexivity |]. split; [| vm_compute; reflexivity].
  apply (live_ripples [Scenario.above; Scenario.below; Scenario.idle] initialState).
  - simpl. constructor.
  - vm_compute. reflexivity.
Defined.

(** *** The size of the live set *)

Lemma youngerThan_app (k : nat) (l1 l2 : list Ripple.t) :
  youngerThan k (l1 ++ l2) = (youngerThan k l1 + youngerThan k l2)%nat.
Proof. unfold youngerThan. rewrite List.filter_app, length_app. reflexivity. Qed.

Lemma youngerThan_length (k : nat) (l : list Ripple.t) :
  (youngerThan k l <= List.length l)%nat.
Proof. unfold youngerThan. apply List.filter_length_le. Qed.

Lemma youngerThan_cons (k : nat) (r : Ripple.t) (l : list Ripple.t) :
  youngerThan k (r :: l) =
  ((if Qle_bool (Ripple.age r) (inject_Z (Z.of_nat k)) then 1 else 0) + youngerThan k l)%nat.
Proof.
  unfold youngerThan. simpl.
  destruct (Qle_bool (Ripple.age r) (inject_Z (Z.of_nat k))); reflexivity.
Qed.

Lemma aged_bound (r : Ripple.t) (k : nat) :
  Qle_bool (Ripple.age (ageRipple r)) (inject_Z (Z.of_nat (S k)))
  = Qle_bool (Ripple.age r) (inject_Z (Z.of_nat k)).
Proof.
  apply eq_true_iff_eq. rewrite !Qle_bool_iff. simpl.
  rewrite Nat2Z.inj_succ. unfold Z.succ. rewrite inject_Z_plus.
  change (inject_Z 1) with 1. split; intros H; lra.
Qed.

Lemma youngerThan_advance (k : nat) (l : list Ripple.t) :
  (youngerThan (S k) (advanceRipples l) <= youngerThan k l)%nat.
Proof.
  induction l as [| r l IH]; [reflexivity |].
  rewrite advanceRipples_cons, (youngerThan_cons k r l).
  destruct (Qlt_bool (Ripple.age r + 1) (Ripple.maxAge r)).
  - rewrite youngerThan_cons, aged_bound. lia.
  - lia.
Qed.

Lemma youngerThan_live (l : list Ripple.t) :
  Forall liveRipple l ->
  youngerThan 0 l = 0%nat /\ youngerThan 59 l = List.length l.
Proof.
  induction 1 as [| r l Hr _ [IH0 IH59]]; [split; reflexivity |].
  rewrite !youngerThan_cons, IH0, IH59.
  destruct Hr as ((k & Hk & Hage) & _).
  assert (H0 : Qle_bool (Ripple.age r) (inject_Z (Z.of_nat 0)) = false).
  { apply not_true_is_false. rewrite Qle_bool_iff, Hage, <- Zle_Qle. lia. }
  assert (H59 : Qle_bool (Ripple.age r) (inject_Z (Z.of_nat 59)) = true).
  { rewrite Qle_bool_iff, Hage, <- Zle_Qle. lia. }
  rewrite H0, H59. split; reflexivity.
Qed.

(** The live set is live, and holds at most [2 * k] ripples of age at most
    [k]. *)
Lemma onResults_bounded (f : Frame) (s s' : State) (log : Log) :
  (List.length (detectedHands f) <= 2)%nat ->
  Forall liveRipple (ripplesRef s) ->
  (forall k, (youngerThan k (ripplesRef s) <= 2 * k)%nat) ->
  onResults f s = Some (s', log) ->
  Forall liveRipple (ripplesRef s') /\
  (forall k, (youngerThan k (ripplesRef s') <= 2 * k)%nat).
Proof.
  intros Hhands Hlive Hyoung Hstep.
  destruct (onResults_ripples f s s' log Hstep) as [-> | (sp & -> & Hlen & Hsp)];
    [split; assumption |].
  assert (Hlive' : Forall liveRipple (advanceRipples (ripplesRef s ++ sp)))
    by (apply advanceRipples_live; assumption).
  split; [exact Hlive' |]. intros [| k].
  - rewrite (proj1 (youngerThan_live _ Hlive')). lia.
  - pose proof (youngerThan_advance k (ripplesRef s ++ sp)) as Hadv.
    rewrite youngerThan_app in Hadv.
    pose proof (youngerThan_length k sp). specialize (Hyoung k). lia.
Qed.

(** X20.  When no frame has more than two hands, the live set holds at
    most 118 ripples between two frames, and at most 120 within a frame,
    where it is largest after the ripples of the frame's plucks have been
    added and before the cleanup: the simulation limits itself. *)
Theorem ripples_bounded (fs : list Frame) (s' : State) :
  (forall f, In f fs -> (List.length (detectedHands f) <= 2)%nat) ->
  runFrames fs initialState = Some s' ->
  (List.length (ripplesRef s') <= 118)%nat /\
  (forall (f : Frame) (s1 : State) (log : Log),
      (List.length (detectedHands f) <= 2)%nat ->
      upToCollisions f s' = Continues s1 log ->
      (List.length (ripplesRef s') <= List.length (ripplesRef s1) <= 120)%nat).
Proof.
  intros Hhands Hrun.
  assert (Hinv : Forall liveRipple (ripplesRef s') /\
                 forall k, (youngerThan k (ripplesRef s') <= 2 * k)%nat).
  { assert (Hstart : Forall liveRipple (ripplesRef initialState) /\
                     forall k, (youngerThan k (ripplesRef initialState) <= 2 * k)%nat).
    { split; [simpl; constructor | intros k; unfold youngerThan; simpl; lia]. }
    revert Hstart Hrun. generalize initialState as s.
    induction fs as [| f rest IH]; intros s Hs; simpl.
    - intros [= <-]. exact Hs.
    - destruct (onResults f s) as [[s1 log] |] eqn:Hstep; [| discriminate].
      apply IH; [intros f' Hin; apply Hhands; right; exact Hin |].
      destruct Hs as [Hl Hy].
      apply (onResults_bounded f s s1 log); try assumption.
      apply Hhands. left. reflexivity. }
  destruct Hinv as [Hlive Hyoung].
  assert (Hbetween : (List.length (ripplesRef s') <= 118)%nat).
  { rewrite <- (proj2 (youngerThan_live _ Hlive)). specialize (Hyoung 59%nat). lia. }
  split; [exact Hbetween |].
  intros f s1 log Hf Hup.
  apply upToCollisions_ripples in Hup as [-> Hlen].
  rewrite length_app, length_map. lia.
Qed.

Lemma ripples_bounded_witness :
  exists s' s1 log,
    runFrames (Scenario.above :: Scenario.below :: replicate 3 Scenario.above) initialState
    = Some s' /\
    upToCollisions Scenario.below s' = Continues s1 log /\
    (List.length (ripplesRef s') <= 118)%nat /\
    (List.length (ripplesRef s1) <= 120)%nat /\
    List.length (ripplesRef s1) = S (List.length (ripplesRef s')).
Proof.
  pose (fs := Scenario.above :: Scenario.below :: replicate 3 Scenario.above).
  pose (s' := default initialState (runFrames fs initialState)).
  assert (Hrun : runFrames fs initialState = Some s') by (vm_compute; reflexivity).
  pose (mid := match upToCollisions Scenario.below s' with
               | Continues s1 log => (s1, log)
               | _ => (s', [])
               end).
  assert (Hup : upToCollisions Scenario.below s' = Continues (fst mid) (snd mid))
    by (vm_compute; reflexivity).
  assert (Hfs : forall f, In f fs -> (List.length (detectedHands f) <= 2)%nat).
  { intros f Hin. simpl in Hin.
    destruct Hin as [<- | [<- | [<- | [<- | [<- | []]]]]]; simpl; lia. }
  destruct (ripples_bounded fs s' Hfs Hrun) as [Hb Hin].
  assert (Hbelow : (List.length (detectedHands Scenario.below) <= 2)%nat) by (simpl; lia).
  exists s', (fst mid), (snd mid).
  split; [exact Hrun |]. split; [exact Hup |]. split; [exact Hb |].
  split; [exact (proj2 (Hin Scenario.below (fst mid) (snd mid) Hbelow Hup)) |].
  vm_compute. reflexivity.
Defined.

(** The ripples that one frame draws are those that its cleanup keeps. *)
Lemma drawn_are_kept_witness :
  let rs := [Ripple.mk 7 50 10 59 60 1; Ripple.mk 8 20 30 3 60 1] in
  Forall (fun r => 0 < Ripple.maxAge r) rs /\
  drawnRipples (List.map ageRipple rs) = advanceRipples rs.
Proof.
  intros rs.
  assert (H : Forall (fun r => 0 < Ripple.maxAge r) rs) by (repeat constructor).
  split; [exact H | exact (drawn_are_kept rs H)].
Defined.

End RippleInvariants.

(** ** One frame with its sound *)

Section FrameSound.
Local Open Scope Q_scope.
Import StarryCanvas AudioService App.







End FrameSound.
